(** * km_diff: difference between two sorted k-mer matrices

    A shallow embedding of [km_diff.c].  Text is [string] (a sequence of
    8-bit characters); C integers are [Z]; a [FILE] opened for reading is
    the text not yet read; the output file and the standard error stream
    are the text written so far. *)

From Stdlib Require Import ZArith List Bool Ascii String Lia Arith.
From Stdlib Require Import Sorting.Sorted Numbers.DecimalString.
Import ListNotations.

Open Scope string_scope.
Open Scope Z_scope.

(** ** Characters and C strings *)

Definition NUL : ascii := "000"%char.
Definition LF : ascii := "010"%char.
Definition TAB : ascii := "009"%char.
Definition SPACE : ascii := " "%char.

(** The value of a character read through [unsigned char]. *)
Definition uchar (c : ascii) : Z := Z.of_nat (nat_of_ascii c).

(** The value of a plain [char] converted to [int]: plain [char] is signed
    on the platforms the tool is built for, so a byte above 127 converts
    to a negative number. *)
Definition char_to_int (c : ascii) : Z :=
  if uchar c <? 128 then uchar c else uchar c - 256.

(** The character a [char *] points at, when the C string it points into
    is [s]: the first character, or the terminator when [s] is empty. *)
Definition deref (s : string) : ascii :=
  match s with
  | EmptyString => NUL
  | String c _ => c
  end.

(** The C string stored in a buffer whose bytes are [s]: the bytes before
    the first NUL. *)
Fixpoint c_str (s : string) : string :=
  match s with
  | EmptyString => EmptyString
  | String c s' => if Ascii.eqb c NUL then EmptyString else String c (c_str s')
  end.

(** [strcmp]: the difference of the first two bytes that differ, read as
    [unsigned char]; callers use the sign only. *)
Fixpoint strcmp (k1 k2 : string) : Z :=
  match k1 with
  | EmptyString => uchar NUL - uchar (deref k2)
  | String c1 r1 =>
      if Ascii.eqb c1 NUL then uchar NUL - uchar (deref k2)
      else if Ascii.eqb c1 (deref k2)
           then strcmp r1 (match k2 with EmptyString => EmptyString | String _ r2 => r2 end)
           else uchar c1 - uchar (deref k2)
  end.

(** ** The lookup tables *)

Definition isnuc_table : list Z := [
      0;   0;   0;   0;   0;   0;   0;   0;   0;   0;   0;   0;   0;   0;   0;   0;
      0;   0;   0;   0;   0;   0;   0;   0;   0;   0;   0;   0;   0;   0;   0;   0;
      0;   0;   0;   0;   0;   0;   0;   0;   0;   0;   0;   0;   0;   0;   0;   0;
      0;   0;   0;   0;   0;   0;   0;   0;   0;   0;   0;   0;   0;   0;   0;   0;
      0;   1;   0;   1;   0;   0;   0;   1;   0;   0;   0;   0;   0;   0;   1;   0;
      0;   0;   0;   0;   1;   0;   0;   0;   0;   0;   0;   0;   0;   0;   0;   0;
      0;   1;   0;   1;   0;   0;   0;   1;   0;   0;   0;   0;   0;   0;   1;   0;
      0;   0;   0;   0;   1;   0;   0;   0;   0;   0;   0;   0;   0;   0;   0;   0;
      0;   0;   0;   0;   0;   0;   0;   0;   0;   0;   0;   0;   0;   0;   0;   0;
      0;   0;   0;   0;   0;   0;   0;   0;   0;   0;   0;   0;   0;   0;   0;   0;
      0;   0;   0;   0;   0;   0;   0;   0;   0;   0;   0;   0;   0;   0;   0;   0;
      0;   0;   0;   0;   0;   0;   0;   0;   0;   0;   0;   0;   0;   0;   0;   0;
      0;   0;   0;   0;   0;   0;   0;   0;   0;   0;   0;   0;   0;   0;   0;   0;
      0;   0;   0;   0;   0;   0;   0;   0;   0;   0;   0;   0;   0;   0;   0;   0;
      0;   0;   0;   0;   0;   0;   0;   0;   0;   0;   0;   0;   0;   0;   0;   0;
      0;   0;   0;   0;   0;   0;   0;   0;   0;   0;   0;   0;   0;   0;   0;   0
]%Z.

Definition n2kt_table : list Z := [
  1; 1; 1; 1; 1; 1; 1; 1; 1; 1; 1; 1; 1; 1; 1; 1; 1; 1; 1; 1; 1; 1; 1; 1; 1; 1; 1; 1; 1; 1; 1; 1;
  1; 1; 1; 1; 1; 1; 1; 1; 1; 1; 1; 1; 1; 1; 1; 1; 1; 1; 1; 1; 1; 1; 1; 1; 1; 1; 1; 1; 1; 1; 1; 1;
  1; 0; 1; 1; 1; 1; 1; 3; 1; 1; 1; 1; 1; 1; 1; 1; 1; 1; 1; 1; 2; 1; 1; 1; 1; 1; 1; 1; 1; 1; 1; 1;
  1; 0; 1; 1; 1; 1; 1; 3; 1; 1; 1; 1; 1; 1; 1; 1; 1; 1; 1; 1; 2; 1; 1; 1; 1; 1; 1; 1; 1; 1; 1; 1;
  1; 1; 1; 1; 1; 1; 1; 1; 1; 1; 1; 1; 1; 1; 1; 1; 1; 1; 1; 1; 1; 1; 1; 1; 1; 1; 1; 1; 1; 1; 1; 1;
  1; 1; 1; 1; 1; 1; 1; 1; 1; 1; 1; 1; 1; 1; 1; 1; 1; 1; 1; 1; 1; 1; 1; 1; 1; 1; 1; 1; 1; 1; 1; 1;
  1; 1; 1; 1; 1; 1; 1; 1; 1; 1; 1; 1; 1; 1; 1; 1; 1; 1; 1; 1; 1; 1; 1; 1; 1; 1; 1; 1; 1; 1; 1; 1;
  1; 1; 1; 1; 1; 1; 1; 1; 1; 1; 1; 1; 1; 1; 1; 1; 1; 1; 1; 1; 1; 1; 1; 1; 1; 1; 1; 1; 1; 1; 1; 1
]%Z.

(** [isnuc[i]]: reading outside the 256 entries is undefined ([None]). *)
Definition isnuc (i : Z) : option Z :=
  if i <? 0 then None else nth_error isnuc_table (Z.to_nat i).

(** The table [n2kt] read at a byte taken as [unsigned char]: the index
    is always inside the table. *)
Definition n2kt (c : ascii) : Z := nth (nat_of_ascii c) n2kt_table 0.

(** ** The key comparator [ktcmp] *)

(** Both pointers advance while the character under [k1] is not the
    terminator and equals the one under [k2]; the result is the difference
    of the ranks of the two characters then pointed at. *)
Fixpoint ktcmp (k1 k2 : string) : Z :=
  match k1 with
  | EmptyString => n2kt NUL - n2kt (deref k2)
  | String c1 r1 =>
      if negb (Ascii.eqb c1 NUL) && Ascii.eqb c1 (deref k2)
      then ktcmp r1 (match k2 with EmptyString => EmptyString | String _ r2 => r2 end)
      else n2kt c1 - n2kt (deref k2)
  end.

(** ** Results of code that may leave defined behaviour *)

(** A computation returns a value, reads a table outside its bounds
    ([Undef]), or is a loop cut short by the bound on its iterations
    ([Fuel]); [diff_output] shows that the bound [diff] gives to its two
    loops is never reached. *)
Inductive result (A : Type) : Type :=
| Ret (a : A)
| Undef
| Fuel.
Arguments Ret {A} a.
Arguments Undef {A}.
Arguments Fuel {A}.

Definition bind {A B : Type} (m : result A) (k : A -> result B) : result B :=
  match m with
  | Ret a => k a
  | Undef => Undef
  | Fuel => Fuel
  end.

Notation "x <- m ;; k" := (bind m (fun x => k))
  (at level 61, m at next level, right associativity).

(** ** The record reader *)

Definition nl : string := String LF EmptyString.

Definition is_LF (c : ascii) : bool := Ascii.eqb c LF.

(** The characters [getline] takes from a stream that is not at its end:
    everything up to the first line feed, which is included. *)
Fixpoint read_line (s : string) : string * string :=
  match s with
  | EmptyString => (EmptyString, EmptyString)
  | String c s' =>
      if is_LF c then (String c EmptyString, s')
      else let (l, r) := read_line s' in (String c l, r)
  end.

(** [getline]: -1 at the end of the stream, the buffer left as it was;
    otherwise the number of characters read, the buffer holding them. *)
Definition getline (line stream : string) : Z * string * string :=
  match stream with
  | EmptyString => (-1, line, stream)
  | _ => let (l, r) := read_line stream in (Z.of_nat (String.length l), l, r)
  end.

Definition tail (s : string) : string :=
  match s with
  | EmptyString => EmptyString
  | String _ s' => s'
  end.

(** The loop over the first [ksize] characters of the line: [n] of them
    remain.  Returns whether all of them passed [isnuc], and the characters
    copied into [kmer] before the loop ended. *)
Fixpoint check_kmer (n : nat) (line : string) : result (bool * string) :=
  match n with
  | O => Ret (true, EmptyString)
  | S n' =>
      match isnuc (char_to_int (deref line)) with
      | None => Undef
      | Some v =>
          if v =? 0 then Ret (false, EmptyString)
          else r <- check_kmer n' (tail line) ;;
               Ret (fst r, String (deref line) (snd r))
      end
  end.

(** The buffer [kmer] after its first characters were overwritten by [k]. *)
Fixpoint overwrite (k kmer : string) : string :=
  match k with
  | EmptyString => kmer
  | String c k' => String c (overwrite k' (tail kmer))
  end.

(** A C string without its last character when that is a line feed: what
    is left once the character before the terminator, found with
    [strlen], is tested and overwritten. *)
Fixpoint chomp (s : string) : string :=
  match s with
  | EmptyString => EmptyString
  | String c EmptyString => if is_LF c then EmptyString else s
  | String c s' => String c (chomp s')
  end.

Definition warning : string := "[warning] input does not seem valid" ++ nl.

Record reading : Type := {
  r_ok : bool;        (* the returned value *)
  r_kmer : string;    (* the buffer [kmer] *)
  r_line : string;    (* the C string held by the buffer [*line] *)
  r_stream : string;  (* what is left of the stream *)
  r_err : string      (* what was written to the standard error stream *)
}.

(** [next_kmer_and_line].  After the key is copied the line buffer is only
    ever used as a C string, so the model keeps the C string it holds. *)
Definition next_kmer_and_line (kmer : string) (ksize : Z) (line stream : string)
  : result reading :=
  let '(n, buf, stream') := getline line stream in
  if n <? ksize then
    Ret {| r_ok := false; r_kmer := kmer; r_line := c_str buf;
           r_stream := stream'; r_err := EmptyString |}
  else
    r <- check_kmer (Z.to_nat ksize) buf ;;
    if fst r then
      (* all [ksize] characters of [kmer] were overwritten *)
      Ret {| r_ok := true; r_kmer := snd r;
             r_line := chomp (c_str buf);
             r_stream := stream'; r_err := EmptyString |}
    else
      Ret {| r_ok := false; r_kmer := overwrite (snd r) kmer;
             r_line := c_str buf;
             r_stream := stream'; r_err := warning |}.

(** ** Counting and skipping columns *)

Definition is_blank (c : ascii) : bool := Ascii.eqb c SPACE || Ascii.eqb c TAB.

Definition is_delim (c : ascii) : bool :=
  Ascii.eqb c SPACE || Ascii.eqb c TAB || Ascii.eqb c LF.

(** The tokens successive calls of [strtok] with the delimiters space,
    tab and line feed return; [cur] is the token being read. *)
Fixpoint strtok_all (cur : string) (s : string) : list string :=
  match s with
  | EmptyString =>
      match cur with EmptyString => [] | _ => [cur] end
  | String c s' =>
      if is_delim c
      then match cur with
           | EmptyString => strtok_all EmptyString s'
           | _ => cur :: strtok_all EmptyString s'
           end
      else strtok_all (cur ++ String c EmptyString) s'
  end.

(** The [while(tok)] loop of [samples_number]. *)
Fixpoint count_tokens (toks : list string) (first : bool) (n_samples : Z) : Z :=
  match toks with
  | [] => n_samples
  | _ :: toks' => count_tokens toks' false (n_samples + (if first then 0 else 1))
  end.

Definition samples_number (line : string) : Z :=
  count_tokens (strtok_all EmptyString (c_str line)) true 0.

Fixpoint skip_while (p : ascii -> bool) (line : string) : string :=
  match line with
  | EmptyString => EmptyString
  | String c line' =>
      if negb (Ascii.eqb c NUL) && p c then skip_while p line' else line
  end.

Definition first_column (line : string) : string :=
  skip_while is_blank (skip_while (fun c => negb (is_blank c)) line).

(** ** The merge *)

(** The variables of [main] the two loops read and write, with the two
    input streams, the output file and the standard error stream. *)
Record state : Type := {
  has_kmer_1 : bool; kmer_1 : string; line_1 : string; mat_1 : string;
  has_kmer_2 : bool; kmer_2 : string; line_2 : string; mat_2 : string;
  outfile : string;
  stderr : string
}.

Definition fputs (s : string) (st : state) : state :=
  {| has_kmer_1 := has_kmer_1 st; kmer_1 := kmer_1 st; line_1 := line_1 st;
     mat_1 := mat_1 st;
     has_kmer_2 := has_kmer_2 st; kmer_2 := kmer_2 st; line_2 := line_2 st;
     mat_2 := mat_2 st;
     outfile := outfile st ++ c_str s;
     stderr := stderr st |}.

Definition fputc (c : ascii) (st : state) : state :=
  {| has_kmer_1 := has_kmer_1 st; kmer_1 := kmer_1 st; line_1 := line_1 st;
     mat_1 := mat_1 st;
     has_kmer_2 := has_kmer_2 st; kmer_2 := kmer_2 st; line_2 := line_2 st;
     mat_2 := mat_2 st;
     outfile := outfile st ++ String c EmptyString;
     stderr := stderr st |}.

(** [has_kmer_1 = next_kmer_and_line(kmer_1, ksize, &line_1, &line_1_size, mat_1)] *)
Definition advance_1 (ksize : Z) (st : state) : result state :=
  r <- next_kmer_and_line (kmer_1 st) ksize (line_1 st) (mat_1 st) ;;
  Ret {| has_kmer_1 := r_ok r; kmer_1 := r_kmer r; line_1 := r_line r;
         mat_1 := r_stream r;
         has_kmer_2 := has_kmer_2 st; kmer_2 := kmer_2 st; line_2 := line_2 st;
         mat_2 := mat_2 st;
         outfile := outfile st;
         stderr := stderr st ++ r_err r |}.

(** [has_kmer_2 = next_kmer_and_line(kmer_2, ksize, &line_2, &line_2_size, mat_2)] *)
Definition advance_2 (ksize : Z) (st : state) : result state :=
  r <- next_kmer_and_line (kmer_2 st) ksize (line_2 st) (mat_2 st) ;;
  Ret {| has_kmer_1 := has_kmer_1 st; kmer_1 := kmer_1 st; line_1 := line_1 st;
         mat_1 := mat_1 st;
         has_kmer_2 := r_ok r; kmer_2 := r_kmer r; line_2 := r_line r;
         mat_2 := r_stream r;
         outfile := outfile st;
         stderr := stderr st ++ r_err r |}.

Definition compare_keys (use_ktcmp : bool) (st : state) : Z :=
  if use_ktcmp then ktcmp (kmer_1 st) (kmer_2 st)
  else strcmp (kmer_1 st) (kmer_2 st).

(** The body of [while(has_kmer_1 && has_kmer_2)]. *)
Definition merge_step (ksize : Z) (use_ktcmp : bool) (st : state) : result state :=
  let ret_cmp := compare_keys use_ktcmp st in
  st' <- (if ret_cmp =? 0 then
            st1 <- advance_1 ksize st ;;
            advance_2 ksize st1
          else if ret_cmp <? 0 then
            advance_1 ksize (fputs (line_1 st) st)
          else
            advance_2 ksize st) ;;
  Ret (fputc LF st').

Fixpoint merging (fuel : nat) (ksize : Z) (use_ktcmp : bool) (st : state)
  : result state :=
  if has_kmer_1 st && has_kmer_2 st then
    match fuel with
    | O => Fuel
    | S fuel' =>
        st' <- merge_step ksize use_ktcmp st ;;
        merging fuel' ksize use_ktcmp st'
    end
  else Ret st.

(** [for(int i=0; i<n_sample_2; ++i){ fputs(" 0",outfile); }] *)
Fixpoint pad_zeros (n : nat) (st : state) : state :=
  match n with
  | O => st
  | S n' => pad_zeros n' (fputs " 0" st)
  end.

(** The body of [while(has_kmer_1)]. *)
Definition drain_step (ksize n_sample_2 : Z) (st : state) : result state :=
  let st := fputs (kmer_1 st) st in
  let st := fputc SPACE st in
  let st := fputs (first_column (line_1 st)) st in
  let st := pad_zeros (Z.to_nat n_sample_2) st in
  let st := fputc LF st in
  advance_1 ksize st.

Fixpoint drain (fuel : nat) (ksize n_sample_2 : Z) (st : state) : result state :=
  if has_kmer_1 st then
    match fuel with
    | O => Fuel
    | S fuel' =>
        st' <- drain_step ksize n_sample_2 st ;;
        drain fuel' ksize n_sample_2 st'
    end
  else Ret st.

Definition Z_to_string (z : Z) : string := NilZero.string_of_int (Z.to_int z).

(** The state once both first rows are read and both sample counts are
    reported, together with [n_sample_2]. *)
Definition init (ksize : Z) (file_1 file_2 : string) : result (state * Z) :=
  let st := {| has_kmer_1 := false; kmer_1 := EmptyString;
               line_1 := EmptyString; mat_1 := file_1;
               has_kmer_2 := false; kmer_2 := EmptyString;
               line_2 := EmptyString; mat_2 := file_2;
               outfile := EmptyString; stderr := EmptyString |} in
  st <- advance_1 ksize st ;;
  let n_sample_1 := if has_kmer_1 st then samples_number (line_1 st) else 0 in
  let info_1 := "[info] samples in 1st matrix: " ++ Z_to_string n_sample_1 ++ nl in
  st <- advance_2 ksize
          {| has_kmer_1 := has_kmer_1 st; kmer_1 := kmer_1 st;
             line_1 := line_1 st; mat_1 := mat_1 st;
             has_kmer_2 := has_kmer_2 st; kmer_2 := kmer_2 st;
             line_2 := line_2 st; mat_2 := mat_2 st;
             outfile := outfile st; stderr := stderr st ++ info_1 |} ;;
  let n_sample_2 := if has_kmer_2 st then samples_number (line_2 st) else 0 in
  let info_2 := "[info] samples in 2nd matrix: " ++ Z_to_string n_sample_2 ++ nl in
  Ret ({| has_kmer_1 := has_kmer_1 st; kmer_1 := kmer_1 st;
          line_1 := line_1 st; mat_1 := mat_1 st;
          has_kmer_2 := has_kmer_2 st; kmer_2 := kmer_2 st;
          line_2 := line_2 st; mat_2 := mat_2 st;
          outfile := outfile st; stderr := stderr st ++ info_2 |}, n_sample_2).

(** A bound on the iterations of either loop: each one reads a line. *)
Definition fuel_of (st : state) : nat :=
  S (String.length (mat_1 st) + String.length (mat_2 st)).

(** Lines 159 to 188 of [main]: both first reads, the merging loop and the
    draining loop, on the contents of the two input files. *)
Definition diff (ksize : Z) (use_ktcmp : bool) (file_1 file_2 : string)
  : result state :=
  i <- init ksize file_1 file_2 ;;
  st <- merging (fuel_of (fst i)) ksize use_ktcmp (fst i) ;;
  drain (fuel_of st) ksize (snd i) st.

(** ** The command line *)

Definition DQUOTE : ascii := "034"%char.
Definition QUOTE : ascii := "039"%char.

(** What one call of [getopt] yields: the value returned, [optarg], and
    the message the C library writes to the standard error stream when it
    returns ['?']. *)
Record getopt_ret : Type := {
  g_c : ascii;
  g_optarg : string;
  g_msg : string
}.

(** Whether [c] is an option character of [optstring], and whether it
    takes an argument. *)
Fixpoint find_opt (optstring : string) (c : ascii) : option bool :=
  match optstring with
  | EmptyString => None
  | String o rest =>
      if Ascii.eqb o c then Some (Ascii.eqb (deref rest) ":"%char)
      else find_opt rest c
  end.

Definition lookup_opt (optstring : string) (c : ascii) : option bool :=
  if Ascii.eqb c ":"%char || Ascii.eqb c ";"%char then None
  else find_opt optstring c.

Definition invalid_option (argv0 : string) (c : ascii) : getopt_ret :=
  {| g_c := "?"%char; g_optarg := EmptyString;
     g_msg := argv0 ++ ": invalid option -- " ++ String QUOTE (String c (String QUOTE nl)) |}.

Definition missing_argument (argv0 : string) (c : ascii) : getopt_ret :=
  {| g_c := "?"%char; g_optarg := EmptyString;
     g_msg := argv0 ++ ": option requires an argument -- "
              ++ String QUOTE (String c (String QUOTE nl)) |}.

(** The calls of [getopt] that scan the characters [cl] of one element
    of [argv]; [next] is the element after it, if any.  The boolean tells
    whether that element was taken as the argument of an option. *)
Fixpoint scan_cluster (optstring argv0 cl : string) (next : option string)
  : list getopt_ret * bool :=
  match cl with
  | EmptyString => ([], false)
  | String c cl' =>
      match lookup_opt optstring c with
      | None =>
          let (rets, took) := scan_cluster optstring argv0 cl' next in
          (invalid_option argv0 c :: rets, took)
      | Some false =>
          let (rets, took) := scan_cluster optstring argv0 cl' next in
          ({| g_c := c; g_optarg := EmptyString; g_msg := EmptyString |} :: rets, took)
      | Some true =>
          match cl' with
          | String _ _ =>
              ([{| g_c := c; g_optarg := cl'; g_msg := EmptyString |}], false)
          | EmptyString =>
              match next with
              | Some a => ([{| g_c := c; g_optarg := a; g_msg := EmptyString |}], true)
              | None => ([missing_argument argv0 c], false)
              end
          end
      end
  end.

(** All the values successive calls of [getopt] return before -1 on the
    elements [args] of [argv] after the program name, and the elements
    left from [argv[optind]] on: the C library moves the elements that
    are not options behind the options, in their order, and stops
    scanning at the element made of two dashes. *)
Fixpoint getopt_all (optstring argv0 : string) (args : list string)
  : list getopt_ret * list string :=
  match args with
  | [] => ([], [])
  | a :: rest =>
      if String.eqb a "--" then ([], rest)
      else if Ascii.eqb (deref a) "-"%char && negb (String.eqb (tail a) EmptyString)
      then
        let (rets, took) := scan_cluster optstring argv0 (tail a) (hd_error rest) in
        match rest with
        | [] => (rets, [])
        | _ :: rest' =>
            let (rets', pos) :=
              getopt_all optstring argv0 (if took then rest' else rest) in
            ((rets ++ rets')%list, pos)
        end
      else
        let (rets, pos) := getopt_all optstring argv0 rest in
        (rets, a :: pos)
  end.

(** [strtol] in base 10, and the conversion of its [long] to [int]. *)
Definition isspace (c : ascii) : bool :=
  Ascii.eqb c SPACE || ((9 <=? uchar c) && (uchar c <=? 13)).

Definition isdigit (c : ascii) : bool := (48 <=? uchar c) && (uchar c <=? 57).

Fixpoint digits (acc : Z) (s : string) : Z :=
  match s with
  | EmptyString => acc
  | String c s' => if isdigit c then digits (10 * acc + (uchar c - 48)) s' else acc
  end.

Definition LONG_MAX : Z := 9223372036854775807.
Definition LONG_MIN : Z := -9223372036854775808.
Definition INT_MAX : Z := 2147483647.

Definition strtol (s : string) : Z :=
  let s := skip_while isspace s in
  let v := if Ascii.eqb (deref s) "-"%char then - digits 0 (tail s)
           else if Ascii.eqb (deref s) "+"%char then digits 0 (tail s)
           else digits 0 s in
  Z.max LONG_MIN (Z.min LONG_MAX v).

Definition long_to_int (z : Z) : Z := (z + 2147483648) mod 4294967296 - 2147483648.

(** The variables the option loop of [main] sets. *)
Record options : Type := {
  ksize : Z;
  out_fname : option string;
  use_ktcmp : bool;
  help_opt : bool
}.

Definition default_options : options :=
  {| ksize := 31; out_fname := None; use_ktcmp := false; help_opt := false |}.

Inductive parsed : Type :=
| Parsed (o : options)            (* [getopt] returned -1 *)
| Return1 (err : string)          (* [case '?': return 1] *)
| Abort.                          (* [default: abort()] *)

(** The [switch] of the option loop, over the values [getopt] returns. *)
Fixpoint parse_options (rets : list getopt_ret) (o : options) : parsed :=
  match rets with
  | [] => Parsed o
  | r :: rets' =>
      if Ascii.eqb (g_c r) "k"%char then
        parse_options rets'
          {| ksize := long_to_int (strtol (g_optarg r)); out_fname := out_fname o;
             use_ktcmp := use_ktcmp o; help_opt := help_opt o |}
      else if Ascii.eqb (g_c r) "o"%char then
        parse_options rets'
          {| ksize := ksize o; out_fname := Some (g_optarg r);
             use_ktcmp := use_ktcmp o; help_opt := help_opt o |}
      else if Ascii.eqb (g_c r) "z"%char then
        parse_options rets'
          {| ksize := ksize o; out_fname := out_fname o;
             use_ktcmp := true; help_opt := help_opt o |}
      else if Ascii.eqb (g_c r) "h"%char then
        parse_options rets'
          {| ksize := ksize o; out_fname := out_fname o;
             use_ktcmp := use_ktcmp o; help_opt := true |}
      else if Ascii.eqb (g_c r) "?"%char then Return1 (g_msg r)
      else Abort
  end.

Definition optstring : string := "k:o:h".

Definition usage : string :=
  "Usage: km_diff [options] <matrix_1> <matrix_2>" ++ nl ++ nl ++
  "Difference between two sorted k-mer matrices." ++ nl ++ nl ++
  "Removes from <matrix_1>, the k-mers in <matrix_2>." ++ nl ++ nl ++
  "Options:" ++ nl ++
  "  -k INT   size of k-mers of input matrices [31]" ++ nl ++
  "  -o FILE  write output matrix to FILE [stdout]" ++ nl ++
  "  -z       use kmtricks order of nucleotides: A<C<T<G" ++ nl ++
  "  -h       print this help message" ++ nl.

(** ** The program *)

(** The files [main] may open: the text of each file that can be opened
    for reading, and whether a path can be opened for writing. *)
Record world : Type := {
  readable : string -> option string;
  writable : string -> bool
}.

(** What a run leaves behind: the exit status, the text written to the
    standard output and error streams, the paths given to [fopen] in the
    order of the calls, and the output file with its text when [-o] named
    one and it was opened. *)
Record outcome : Type := {
  status : Z;
  stdout : string;
  errors : string;
  opened : list string;
  written : option (string * string)
}.

Inductive ending : Type :=
| Exits (o : outcome)
| Aborts.

Definition cannot_open (what path : string) : string :=
  what ++ String DQUOTE path ++ String DQUOTE nl.

(** The text a reader opened on [path] finds: opening the same path for
    writing afterwards empties the file before anything is read. *)
Definition text_after_open (out : option string) (path text : string) : string :=
  match out with
  | Some p => if String.eqb p path then EmptyString else text
  | None => text
  end.

(** [main] from the test on [ksize] on: [o] holds the variables set by the
    option loop and [pos] the elements of [argv] from [argv[optind]] on. *)
Definition run (w : world) (o : options) (pos : list string) : result ending :=
  if ksize o <=? 0 then
    Ret (Exits {| status := 1; stdout := EmptyString;
                  errors := "Invalid value of k: " ++ Z_to_string (ksize o) ++ nl;
                  opened := []; written := None |})
  else if negb (Nat.eqb (List.length pos) 2) || help_opt o then
    Ret (Exits {| status := 0; stdout := usage; errors := EmptyString;
                  opened := []; written := None |})
  else
    let path_1 := nth 0 pos EmptyString in
    let path_2 := nth 1 pos EmptyString in
    match readable w path_1 with
    | None =>
        Ret (Exits {| status := 1; stdout := EmptyString;
                      errors := cannot_open "Cannot open file " path_1;
                      opened := [path_1]; written := None |})
    | Some text_1 =>
        match readable w path_2 with
        | None =>
            Ret (Exits {| status := 1; stdout := EmptyString;
                          errors := cannot_open "Cannot open file " path_2;
                          opened := [path_1; path_2]; written := None |})
        | Some text_2 =>
            let files := match out_fname o with
                         | Some p => [path_1; path_2; p]
                         | None => [path_1; path_2]
                         end in
            if match out_fname o with
               | Some p => negb (writable w p)
               | None => false
               end
            then
              Ret (Exits {| status := 1; stdout := EmptyString;
                            errors := cannot_open "Cannot open output file "
                                        (match out_fname o with
                                         | Some p => p
                                         | None => EmptyString
                                         end);
                            opened := files; written := None |})
            else if ksize o =? INT_MAX then Undef  (* [ksize+1] overflows *)
            else
              st <- diff (ksize o) (use_ktcmp o)
                      (text_after_open (out_fname o) path_1 text_1)
                      (text_after_open (out_fname o) path_2 text_2) ;;
              Ret (Exits {| status := 0;
                            stdout := match out_fname o with
                                      | Some _ => EmptyString
                                      | None => outfile st
                                      end;
                            errors := stderr st;
                            opened := files;
                            written := match out_fname o with
                                       | Some p => Some (p, outfile st)
                                       | None => None
                                       end |})
        end
    end.

Definition main (w : world) (argv : list string) : result ending :=
  let (rets, pos) := getopt_all optstring (hd EmptyString argv) (List.tl argv) in
  match parse_options rets default_options with
  | Abort => Ret Aborts
  | Return1 err =>
      Ret (Exits {| status := 1; stdout := EmptyString; errors := err;
                    opened := []; written := None |})
  | Parsed o => run w o pos
  end.

(** ** Vocabulary of the properties *)

(** The text made of the lines [ls], each ended by a line feed. *)
Definition lines (ls : list string) : string :=
  fold_right (fun l s => l ++ nl ++ s) EmptyString ls.

(** All the characters of [s] satisfy [p]. *)
Fixpoint over (p : ascii -> bool) (s : string) : bool :=
  match s with
  | EmptyString => true
  | String c s' => p c && over p s'
  end.

Fixpoint take (n : nat) (s : string) : string :=
  match n, s with
  | S n', String c s' => String c (take n' s')
  | _, _ => EmptyString
  end.

Definition one_of (set : string) (c : ascii) : bool :=
  existsb (Ascii.eqb c) (list_ascii_of_string set).

(** The alphabet of keys, and the characters the reader lets through. *)
Definition nucleotide : ascii -> bool := one_of "ACGT".
Definition accepted : ascii -> bool := one_of "ACGNTacgnt".

(** Bytes below 128, for which [char] and [unsigned char] agree. *)
Definition seven_bit (c : ascii) : bool := uchar c <? 128.

(** The rank of a nucleotide in the order A<C<T<G. *)
Definition rank (c : ascii) : Z :=
  if Ascii.eqb c "A"%char then 0
  else if Ascii.eqb c "C"%char then 1
  else if Ascii.eqb c "T"%char then 2
  else if Ascii.eqb c "G"%char then 3
  else 1.

(** A row as the reader hands it over: the key and the line it was on. *)
Definition row : Type := (string * string)%type.

(** The rows successive reads of a stream deliver, up to the first read
    that returns false; [fuel] bounds their number. *)
Fixpoint rows (fuel : nat) (ksize : Z) (stream : string) : list row :=
  match fuel with
  | O => []
  | S fuel' =>
      match next_kmer_and_line EmptyString ksize EmptyString stream with
      | Ret r =>
          if r_ok r then (r_kmer r, r_line r) :: rows fuel' ksize (r_stream r)
          else []
      | _ => []
      end
  end.

Definition stream_rows (ksize : Z) (stream : string) : list row :=
  rows (S (String.length stream)) ksize stream.

Definition keys (rs : list row) : list string := map fst rs.

(** Width of a stream: the sample columns counted on its first row. *)
Definition width (ksize : Z) (stream : string) : Z :=
  match stream_rows ksize stream with
  | [] => 0
  | r :: _ => samples_number (snd r)
  end.

Definition compare (use_ktcmp : bool) (k1 k2 : string) : Z :=
  if use_ktcmp then ktcmp k1 k2 else strcmp k1 k2.

(** The merging loop seen on the rows of the two streams: the lines it
    writes, and the left rows not yet consumed when it ends. *)
Fixpoint merge_rows (use_ktcmp : bool) (L : list row) : list row -> list string * list row :=
  fix merge_right (R : list row) : list string * list row :=
    match L, R with
    | [], _ => ([], [])
    | _ :: _, [] => ([], L)
    | r1 :: L', r2 :: R' =>
        if compare use_ktcmp (fst r1) (fst r2) =? 0 then
          let (out, rest) := merge_rows use_ktcmp L' R' in (EmptyString :: out, rest)
        else if compare use_ktcmp (fst r1) (fst r2) <? 0 then
          let (out, rest) := merge_rows use_ktcmp L' R in (snd r1 :: out, rest)
        else
          let (out, rest) := merge_right R' in (EmptyString :: out, rest)
    end.

Fixpoint zeros (n : nat) : string :=
  match n with
  | O => EmptyString
  | S n' => " 0" ++ zeros n'
  end.

(** A row as the draining loop writes it, without its line feed. *)
Definition padded_row (n_sample_2 : Z) (r : row) : string :=
  fst r ++ " " ++ first_column (snd r) ++ zeros (Z.to_nat n_sample_2).

(** The lines of a text, each without its line feed. *)
Fixpoint text_lines (s : string) : list string :=
  match s with
  | EmptyString => []
  | String c s' =>
      if is_LF c then EmptyString :: text_lines s'
      else match text_lines s' with
           | [] => [String c EmptyString]
           | l :: ls => String c l :: ls
           end
  end.

Definition is_empty (s : string) : bool :=
  match s with
  | EmptyString => true
  | _ => false
  end.

(** The rows of an output text are its lines that are not empty; the key
    of a row is made of its first [ksize] characters. *)
Definition output_rows (out : string) : list string :=
  filter (fun l => negb (is_empty l)) (text_lines out).

Definition emitted_keys (ksize : Z) (out : string) : list string :=
  map (take (Z.to_nat ksize)) (output_rows out).

Definition mem (k : string) (ks : list string) : bool := existsb (String.eqb k) ks.

(** Keys in strictly increasing and in non-decreasing order. *)
Definition increasing (use_ktcmp : bool) (ks : list string) : Prop :=
  Sorted (fun a b => compare use_ktcmp a b < 0) ks.

Definition non_decreasing (use_ktcmp : bool) (ks : list string) : Prop :=
  Sorted (fun a b => compare use_ktcmp a b <= 0) ks.

Definition left_P6 : string := lines ["AAA 1 2"; "AAC 0 1"; "TTT 3 3"].
Definition right_P6 : string := lines ["AAC 5 5"; "GGG 0 0"].

Definition world_P6 : world :=
  {| readable := fun p => if String.eqb p "left" then Some left_P6
                          else if String.eqb p "right" then Some right_P6
                          else None;
     writable := fun _ => true |}.

Definition no_NUL (s : string) : bool := over (fun c => negb (Ascii.eqb c NUL)) s.
Definition no_LF (s : string) : bool := over (fun c => negb (is_LF c)) s.

(** What makes a pair of a key and a line a row of keys of [ksize]
    characters: the key has that length, is made of accepted characters
    and starts the line, which has neither NUL nor line feed. *)
Definition row_ok (ksize : Z) (r : row) : Prop :=
  String.length (fst r) = Z.to_nat ksize /\
  over accepted (fst r) = true /\
  take (Z.to_nat ksize) (snd r) = fst r /\
  no_NUL (snd r) = true /\ no_LF (snd r) = true.

(** The rows a state still has to offer on each side: the row held in the
    buffers, if there is one, and the rows left in the stream. *)
Definition left_rows (ksize : Z) (st : state) : list row :=
  if has_kmer_1 st
  then (kmer_1 st, line_1 st) :: stream_rows ksize (mat_1 st)
  else [].

Definition right_rows (ksize : Z) (st : state) : list row :=
  if has_kmer_2 st
  then (kmer_2 st, line_2 st) :: stream_rows ksize (mat_2 st)
  else [].

Definition state_ok (ksize : Z) (st : state) : Prop :=
  over seven_bit (mat_1 st) = true /\ over seven_bit (mat_2 st) = true /\
  (has_kmer_1 st = true -> row_ok ksize (kmer_1 st, line_1 st)) /\
  (has_kmer_2 st = true -> row_ok ksize (kmer_2 st, line_2 st)).

(** The characters on which each comparator is an order, and the value of
    a character under it. *)
Definition alphabet (use_ktcmp : bool) : ascii -> bool :=
  if use_ktcmp then nucleotide else accepted.

Definition value (use_ktcmp : bool) : ascii -> Z :=
  if use_ktcmp then rank else uchar.

Definition is_key (use_ktcmp : bool) (n : nat) (k : string) : Prop :=
  String.length k = n /\ over (alphabet use_ktcmp) k = true.

(** A value that [getopt] returns for the option string of [main] is
    never the character [z]. *)
Definition not_z (r : getopt_ret) : Prop := g_c r <> "z"%char.

(** A row whose key is followed by two tabs. *)
Definition tabbed_row : string :=
  "AAA" ++ String TAB (String TAB "1  2") ++ nl.

(** Closing the side conditions of the lemmas on orders. *)
Create HintDb key_order.

Ltac order_facts :=
  first [ assumption | congruence | solve [eauto with key_order] ].

(** ** Vocabulary of the further properties *)

(** [l1] is [l2] with some of its elements left out. *)
Inductive subsequence {A : Type} : list A -> list A -> Prop :=
| subsequence_nil : subsequence [] []
| subsequence_skip : forall x l1 l2, subsequence l1 l2 -> subsequence l1 (x :: l2)
| subsequence_keep : forall x l1 l2, subsequence l1 l2 -> subsequence (x :: l1) (x :: l2).

(** Two characters the table [n2kt] gives the same value among those the
    reader accepts: the same letter in either case, or one of C and N. *)
Definition same_nucleotide (c1 c2 : ascii) : bool :=
  (one_of "Aa" c1 && one_of "Aa" c2) || (one_of "CcNn" c1 && one_of "CcNn" c2)
  || (one_of "Tt" c1 && one_of "Tt" c2) || (one_of "Gg" c1 && one_of "Gg" c2).

(** The text of a line, without its line feed, that the reader takes as a
    row of keys of [ksize] characters: at least that long, starting with
    accepted characters, with neither NUL nor line feed. *)
Definition row_text_ok (ksize : Z) (l : string) : Prop :=
  (Z.to_nat ksize <= String.length l)%nat /\
  over accepted (take (Z.to_nat ksize) l) = true /\
  no_NUL l = true /\ no_LF l = true.

(** The row read from such a line. *)
Definition row_of_text (ksize : Z) (l : string) : row :=
  (take (Z.to_nat ksize) l, l).

(** A token for [strtok]: not empty, without NUL nor delimiter. *)
Definition is_token (t : string) : Prop :=
  t <> EmptyString /\
  over (fun c => negb (Ascii.eqb c NUL) && negb (is_delim c)) t = true.

(** A separator: one delimiter at least, and only delimiters. *)
Definition is_separator (s : string) : Prop :=
  s <> EmptyString /\ over is_delim s = true.

(** Columns, each after its separator. *)
Fixpoint columns_text (cols : list (string * string)) : string :=
  match cols with
  | [] => EmptyString
  | (sep, tok) :: cols' => sep ++ tok ++ columns_text cols'
  end.

(** A value of [getopt] that stands for an error comes with a message. *)
Definition reported (r : getopt_ret) : Prop :=
  g_c r = "?"%char -> g_msg r <> EmptyString.

(** * Properties *)

(** ** Strings *)

Lemma append_nil_r (s : string) : s ++ EmptyString = s.
Proof. induction s as [|c s IH]; simpl; [reflexivity | now rewrite IH]. Qed.

Lemma append_assoc (a b c : string) : (a ++ b) ++ c = a ++ (b ++ c).
Proof. induction a as [|x a IH]; simpl; [reflexivity | now rewrite IH]. Qed.

Lemma length_append (a b : string) :
  String.length (a ++ b) = (String.length a + String.length b)%nat.
Proof. induction a as [|x a IH]; simpl; [reflexivity | now rewrite IH]. Qed.

Lemma one_of_ACGT (c : ascii) :
  nucleotide c = true ->
  c = "A"%char \/ c = "C"%char \/ c = "G"%char \/ c = "T"%char.
Proof.
  unfold nucleotide, one_of; simpl.
  rewrite !orb_true_iff, !Ascii.eqb_eq.
  intros [H | [H | [H | [H | H]]]]; auto; discriminate H.
Qed.

(** ** The comparator [ktcmp] *)

Lemma n2kt_is_rank (c : ascii) : nucleotide c = true -> n2kt c = rank c.
Proof.
  intros H. destruct (one_of_ACGT c H) as [-> | [-> | [-> | ->]]]; reflexivity.
Qed.

Lemma nucleotide_not_NUL (c : ascii) : nucleotide c = true -> Ascii.eqb c NUL = false.
Proof.
  intros H. destruct (one_of_ACGT c H) as [-> | [-> | [-> | ->]]]; reflexivity.
Qed.

Lemma rank_injective (c1 c2 : ascii) :
  nucleotide c1 = true -> nucleotide c2 = true -> rank c1 = rank c2 -> c1 = c2.
Proof.
  intros H1 H2.
  destruct (one_of_ACGT c1 H1) as [-> | [-> | [-> | ->]]];
    destruct (one_of_ACGT c2 H2) as [-> | [-> | [-> | ->]]];
    vm_compute; intros E; (reflexivity || discriminate E).
Qed.

Lemma ktcmp_cons (c1 c2 : ascii) (r1 r2 : string) :
  nucleotide c1 = true -> nucleotide c2 = true ->
  ktcmp (String c1 r1) (String c2 r2) =
  if Ascii.eqb c1 c2 then ktcmp r1 r2 else rank c1 - rank c2.
Proof.
  intros H1 H2. simpl.
  rewrite (nucleotide_not_NUL c1 H1); simpl.
  destruct (Ascii.eqb c1 c2); [reflexivity|].
  now rewrite !n2kt_is_rank.
Qed.

Lemma ktcmp_refl (k : string) : over nucleotide k = true -> ktcmp k k = 0.
Proof.
  induction k as [|c k IH]; simpl over; intros H; [reflexivity|].
  apply andb_true_iff in H as [Hc Hk].
  rewrite ktcmp_cons, Ascii.eqb_refl by assumption. auto.
Qed.

Lemma ktcmp_first_difference (k1 : string) :
  forall k2,
    over nucleotide k1 = true -> over nucleotide k2 = true ->
    String.length k1 = String.length k2 -> k1 <> k2 ->
    exists p c1 c2 s1 s2,
      k1 = p ++ String c1 s1 /\ k2 = p ++ String c2 s2 /\ c1 <> c2 /\
      nucleotide c1 = true /\ nucleotide c2 = true /\
      ktcmp k1 k2 = rank c1 - rank c2.
Proof.
  induction k1 as [|c1 k1 IH]; intros [|c2 k2] H1 H2 Hlen Hne;
    try discriminate Hlen; [congruence|].
  simpl over in H1, H2.
  apply andb_true_iff in H1 as [Hc1 Hk1]. apply andb_true_iff in H2 as [Hc2 Hk2].
  rewrite ktcmp_cons by assumption.
  destruct (Ascii.eqb_spec c1 c2) as [-> | Hc].
  - destruct (IH k2 Hk1 Hk2) as (p & a & b & s1 & s2 & E1 & E2 & Hab & Ha & Hb & E).
    + simpl in Hlen. congruence.
    + congruence.
    + exists (String c2 p), a, b, s1, s2. simpl. rewrite <- E1, <- E2. auto 10.
  - exists EmptyString, c1, c2, k1, k2. simpl. auto 10.
Qed.

(** C5. On two keys of the same length over the alphabet A, C, G, T the
    comparator [ktcmp] returns zero when the keys are the same, and
    otherwise the rank of the character of the first key minus the rank of
    the character of the second key at the first position where they
    differ, the ranks being A 0, C 1, T 2, G 3; on keys of one character it
    puts A before C, C before T and T before G. *)
Theorem ktcmp_rank_order :
  forall k1 k2 : string,
    over nucleotide k1 = true -> over nucleotide k2 = true ->
    String.length k1 = String.length k2 ->
    (k1 = k2 -> ktcmp k1 k2 = 0) /\
    (k1 <> k2 ->
     exists p c1 c2 s1 s2,
       k1 = p ++ String c1 s1 /\ k2 = p ++ String c2 s2 /\ c1 <> c2 /\
       ktcmp k1 k2 = rank c1 - rank c2) /\
    ktcmp "A" "C" < 0 /\ ktcmp "C" "T" < 0 /\ ktcmp "T" "G" < 0.
Proof.
  intros k1 k2 H1 H2 Hlen. split; [|split].
  - intros <-. now apply ktcmp_refl.
  - intros Hne.
    destruct (ktcmp_first_difference k1 k2 H1 H2 Hlen Hne)
      as (p & c1 & c2 & s1 & s2 & E1 & E2 & Hc & _ & _ & E).
    exists p, c1, c2, s1, s2. auto.
  - repeat split; reflexivity.
Qed.

Lemma ktcmp_rank_order_witness :
  ktcmp "ACGT" "ACGT" = 0 /\
  exists p c1 c2 s1 s2,
    "ACTA" = p ++ String c1 s1 /\ "ACGA" = p ++ String c2 s2 /\ c1 <> c2 /\
    ktcmp "ACTA" "ACGA" = rank c1 - rank c2.
Proof.
  split.
  - apply (ktcmp_rank_order "ACGT" "ACGT"); reflexivity.
  - apply (ktcmp_rank_order "ACTA" "ACGA"); try reflexivity. discriminate.
Defined.

(** ** The record reader *)

Lemma isnuc_accepted (c : ascii) :
  seven_bit c = true ->
  isnuc (char_to_int c) = Some (if accepted c then 1 else 0).
Proof.
  destruct c as [[] [] [] [] [] [] [] []]; vm_compute; intros H;
    (reflexivity || discriminate H).
Qed.

Lemma accepted_plain (c : ascii) :
  accepted c = true ->
  Ascii.eqb c NUL = false /\ is_LF c = false /\ is_blank c = false /\
  seven_bit c = true.
Proof.
  destruct c as [[] [] [] [] [] [] [] []]; vm_compute; intros H;
    (discriminate H || auto).
Qed.

Lemma check_kmer_spec (n : nat) :
  forall buf : string,
    (n <= String.length buf)%nat ->
    over seven_bit (take n buf) = true ->
    exists k,
      check_kmer n buf = Ret (over accepted (take n buf), k) /\
      (over accepted (take n buf) = true -> k = take n buf).
Proof.
  induction n as [|n IH]; intros buf Hlen H7.
  - exists EmptyString. destruct buf; simpl; auto.
  - destruct buf as [|c buf]; [simpl in Hlen; lia|].
    simpl in Hlen, H7. apply andb_true_iff in H7 as [Hc H7].
    simpl. rewrite (isnuc_accepted c Hc).
    destruct (accepted c) eqn:Ec; simpl.
    + destruct (IH buf) as (k & E & Hk); [lia | assumption |].
      rewrite E. simpl. eexists; split; [reflexivity|].
      intros Hall. now rewrite Hk.
    + exists EmptyString. split; [reflexivity | discriminate].
Qed.

Lemma reader_accepts_table_spec :
  forall (kmer : string) (ksize : Z) (line stream : string)
         (n : Z) (buf rest : string),
    0 < ksize ->
    getline line stream = (n, buf, rest) ->
    ksize <= n ->
    over seven_bit (take (Z.to_nat ksize) buf) = true ->
    exists r,
      next_kmer_and_line kmer ksize line stream = Ret r /\
      r_stream r = rest /\
      (r_ok r = true <-> over accepted (take (Z.to_nat ksize) buf) = true) /\
      (r_ok r = true ->
       r_kmer r = take (Z.to_nat ksize) buf /\ r_err r = EmptyString) /\
      (r_ok r = false -> r_err r = warning).
Proof.
  intros kmer ksize line stream n buf rest Hk Hget Hn H7.
  assert (Hlen : (Z.to_nat ksize <= String.length buf)%nat).
  { unfold getline in Hget. destruct stream as [|c s].
    - inversion Hget; subst. lia.
    - destruct (read_line (String c s)) as [l r'].
      inversion Hget; subst. lia. }
  destruct (check_kmer_spec _ buf Hlen H7) as (k & E & Hkey).
  unfold next_kmer_and_line. rewrite Hget.
  replace (n <? ksize) with false by (symmetry; apply Z.ltb_ge; lia).
  rewrite E. simpl.
  destruct (over accepted (take (Z.to_nat ksize) buf)) eqn:Eacc; simpl;
    eexists; (split; [reflexivity|]); simpl.
  - repeat split; auto; discriminate.
  - repeat split; auto; discriminate.
Qed.

(** C4, as the code has it.  For a line that passes the length check and
    whose first [ksize] bytes are below 128, the reader accepts the line
    exactly when each of its first [ksize] characters is one of A, C, G,
    N, T, a, c, g, n, t; the key is then made of these characters and
    nothing is reported; otherwise the warning is reported and the reader
    returns false. *)
Theorem reader_accepts_iff_table :
  forall (kmer : string) (ksize : Z) (line stream : string)
         (n : Z) (buf rest : string),
    0 < ksize ->
    getline line stream = (n, buf, rest) ->
    ksize <= n ->
    over seven_bit (take (Z.to_nat ksize) buf) = true ->
    exists r,
      next_kmer_and_line kmer ksize line stream = Ret r /\
      r_stream r = rest /\
      (r_ok r = true <-> over accepted (take (Z.to_nat ksize) buf) = true) /\
      (r_ok r = true ->
       r_kmer r = take (Z.to_nat ksize) buf /\ r_err r = EmptyString) /\
      (r_ok r = false -> r_err r = warning).
Proof.
  intros kmer ksize line stream n buf rest Hk Hget Hn H7.
  exact (reader_accepts_table_spec kmer ksize line stream n buf rest Hk Hget Hn H7).
Qed.

Lemma reader_accepts_iff_table_witness :
  exists r,
    next_kmer_and_line EmptyString 3 EmptyString ("ACG 1 2" ++ nl) = Ret r /\
    r_ok r = true /\ r_kmer r = "ACG".
Proof.
  destruct (reader_accepts_iff_table EmptyString 3 EmptyString ("ACG 1 2" ++ nl)
              8 ("ACG 1 2" ++ nl) EmptyString)
    as (r & E & _ & Hok & Hkey & _); try reflexivity; [lia|].
  exists r. split; [exact E|].
  assert (H : r_ok r = true) by (apply Hok; reflexivity).
  split; [exact H | apply Hkey, H].
Defined.

(** C4, as stated, fails: the line "acN 1" passes the length check for
    keys of three characters and is accepted, although none of its first
    three characters is one of A, C, G, T. *)
Lemma reader_accepts_lowercase_and_N :
  ~ (forall (kmer : string) (ksize : Z) (line stream : string)
            (n : Z) (buf rest : string) (r : reading),
        getline line stream = (n, buf, rest) ->
        ksize <= n ->
        next_kmer_and_line kmer ksize line stream = Ret r ->
        (r_ok r = true <-> over nucleotide (take (Z.to_nat ksize) buf) = true)).
Proof.
  intros H.
  specialize (H EmptyString 3 EmptyString ("acN 1" ++ nl) 6 ("acN 1" ++ nl)
                EmptyString
                {| r_ok := true; r_kmer := "acN"; r_line := "acN 1";
                   r_stream := EmptyString; r_err := EmptyString |}
                eq_refl ltac:(lia) eq_refl).
  destruct H as [H _]. specialize (H eq_refl). discriminate H.
Qed.

(** ** One iteration of the merging loop *)

Lemma advance_1_outfile (ksize : Z) (st st' : state) :
  advance_1 ksize st = Ret st' -> outfile st' = outfile st.
Proof.
  unfold advance_1.
  destruct (next_kmer_and_line _ _ _ _); simpl; intros E; inversion E; reflexivity.
Qed.

Lemma advance_2_outfile (ksize : Z) (st st' : state) :
  advance_2 ksize st = Ret st' -> outfile st' = outfile st.
Proof.
  unfold advance_2.
  destruct (next_kmer_and_line _ _ _ _); simpl; intros E; inversion E; reflexivity.
Qed.

(** What an iteration of the merging loop appends to the output file. *)
Lemma merge_step_outfile (ksize : Z) (use_ktcmp : bool) (st st' : state) :
  merge_step ksize use_ktcmp st = Ret st' ->
  outfile st' =
  outfile st
  ++ (if compare_keys use_ktcmp st <? 0 then c_str (line_1 st) else EmptyString)
  ++ nl.
Proof.
  unfold merge_step.
  destruct (compare_keys use_ktcmp st =? 0) eqn:E0.
  - apply Z.eqb_eq in E0. rewrite E0. simpl.
    destruct (advance_1 ksize st) as [st1| |] eqn:E1; simpl; try discriminate.
    destruct (advance_2 ksize st1) as [st2| |] eqn:E2; simpl; try discriminate.
    intros E; inversion E; subst; simpl.
    now rewrite (advance_2_outfile _ _ _ E2), (advance_1_outfile _ _ _ E1).
  - destruct (compare_keys use_ktcmp st <? 0) eqn:Elt.
    + destruct (advance_1 ksize (fputs (line_1 st) st)) as [st1| |] eqn:E1;
        simpl; try discriminate.
      intros E; inversion E; subst; simpl.
      rewrite (advance_1_outfile _ _ _ E1). simpl. now rewrite append_assoc.
    + destruct (advance_2 ksize st) as [st2| |] eqn:E2; simpl; try discriminate.
      intros E; inversion E; subst; simpl.
      now rewrite (advance_2_outfile _ _ _ E2).
Qed.

(** C3 fails on the code.  With keys of three characters, the first
    iteration on the rows "AAC 0 1" and "AAC 5 5" finds equal keys, and the
    first iteration on the rows "TTT 3 3" and "GGG 0 0" finds the left key
    greater: nothing was written before either iteration, and a line feed
    is in the output file after it. *)
Theorem merging_iteration_writes_line_feed :
  (exists st0 n st1,
      init 3 (lines ["AAC 0 1"]) (lines ["AAC 5 5"]) = Ret (st0, n) /\
      compare_keys false st0 = 0 /\
      merge_step 3 false st0 = Ret st1 /\
      outfile st0 = EmptyString /\ outfile st1 = nl) /\
  (exists st0 n st1,
      init 3 (lines ["TTT 3 3"]) (lines ["GGG 0 0"]) = Ret (st0, n) /\
      compare_keys false st0 > 0 /\
      merge_step 3 false st0 = Ret st1 /\
      outfile st0 = EmptyString /\ outfile st1 = nl).
Proof.
  split; do 3 eexists; (split; [vm_compute; reflexivity|]);
    repeat split; reflexivity.
Qed.

(** ** The example of the specification *)

(** C2 fails on the code.  On the example, with keys of three characters
    and the default order, the program writes four lines: between the two
    expected rows stand two empty lines, one for the key dropped and one
    for the right row passed over. *)
Theorem example_P6_output :
  exists o,
    main world_P6 ["km_diff"; "-k"; "3"; "left"; "right"] = Ret (Exits o) /\
    status o = 0 /\
    stdout o = lines ["AAA 1 2"; ""; ""; "TTT 3 3 0 0"] /\
    stdout o <> lines ["AAA 1 2"; "TTT 3 3 0 0"] /\
    output_rows (stdout o) = ["AAA 1 2"; "TTT 3 3 0 0"].
Proof.
  eexists. split; [vm_compute; reflexivity|].
  repeat split; try reflexivity. discriminate.
Qed.

(** ** The option loop *)

Lemma lookup_opt_not_z (c : ascii) (b : bool) :
  lookup_opt optstring c = Some b -> c <> "z"%char.
Proof. intros H ->. discriminate H. Qed.

Lemma scan_cluster_not_z (argv0 cl : string) (next : option string) :
  forall rets took,
    scan_cluster optstring argv0 cl next = (rets, took) -> Forall not_z rets.
Proof.
  induction cl as [|c cl IH]; simpl; intros rets took E.
  - inversion E. constructor.
  - destruct (lookup_opt optstring c) as [[|]|] eqn:El.
    + apply lookup_opt_not_z in El.
      destruct cl; [destruct next|]; inversion E; subst;
        repeat constructor; unfold not_z; simpl; (assumption || discriminate).
    + apply lookup_opt_not_z in El.
      destruct (scan_cluster optstring argv0 cl next) as [rets' took'].
      inversion E; subst. constructor; [exact El | eapply IH; reflexivity].
    + destruct (scan_cluster optstring argv0 cl next) as [rets' took'].
      inversion E; subst. constructor; [discriminate | eapply IH; reflexivity].
Qed.

Lemma getopt_all_not_z (argv0 : string) (n : nat) :
  forall args, (List.length args <= n)%nat ->
    Forall not_z (fst (getopt_all optstring argv0 args)).
Proof.
  induction n as [|n IH]; intros [|a rest] Hlen; simpl in *;
    try constructor; try lia.
  destruct (String.eqb a "--"); [constructor|].
  destruct (Ascii.eqb (deref a) "-" && negb (String.eqb (tail a) EmptyString)).
  - destruct (scan_cluster optstring argv0 (tail a) (hd_error rest))
      as [rets took] eqn:Es.
    apply scan_cluster_not_z in Es.
    destruct rest as [|b rest']; [exact Es|].
    assert (H : Forall not_z
                  (fst (getopt_all optstring argv0
                          (if took then rest' else b :: rest')))).
    { apply IH. destruct took; simpl in *; lia. }
    destruct (getopt_all optstring argv0 (if took then rest' else b :: rest')).
    simpl in *. apply Forall_app. split; assumption.
  - assert (H : Forall not_z (fst (getopt_all optstring argv0 rest)))
      by (apply IH; lia).
    destruct (getopt_all optstring argv0 rest). exact H.
Qed.

Lemma parse_options_keeps_use_ktcmp (rets : list getopt_ret) :
  Forall not_z rets ->
  forall o, use_ktcmp o = false ->
    match parse_options rets o with
    | Parsed o' => use_ktcmp o' = false
    | _ => True
    end.
Proof.
  induction 1 as [|r rets Hr _ IH]; intros o Ho; simpl; [exact Ho|].
  destruct (Ascii.eqb (g_c r) "k"); [apply IH; exact Ho|].
  destruct (Ascii.eqb (g_c r) "o"); [apply IH; exact Ho|].
  destruct (Ascii.eqb_spec (g_c r) "z"%char) as [E|_]; [contradiction|].
  destruct (Ascii.eqb (g_c r) "h"); [apply IH; exact Ho|].
  destruct (Ascii.eqb (g_c r) "?"); exact I.
Qed.

(** C7 fails on the code.  The option string given to [getopt] has no
    [z]: whatever the command line, the option loop ends with [use_ktcmp]
    false or ends the run, so the merge never compares keys with [ktcmp];
    on the example, the command line with [-z] ends with status 1 and the
    complaint of [getopt], no file opened. *)
Theorem option_z_is_never_accepted :
  (forall argv : list string,
      match parse_options
              (fst (getopt_all optstring (hd EmptyString argv) (List.tl argv)))
              default_options with
      | Parsed o => use_ktcmp o = false
      | _ => True
      end) /\
  main world_P6 ["km_diff"; "-k"; "3"; "-z"; "left"; "right"] =
  Ret (Exits {| status := 1; stdout := EmptyString;
                errors := "km_diff: invalid option -- 'z'" ++ nl;
                opened := []; written := None |}).
Proof.
  split; [|reflexivity].
  intros argv. apply parse_options_keeps_use_ktcmp; [|reflexivity].
  eapply getopt_all_not_z. reflexivity.
Qed.

(** ** Configuration errors *)

Lemma run_configuration_errors (w : world) (o : options) (pos : list string) :
  (ksize o <= 0 ->
   run w o pos =
   Ret (Exits {| status := 1; stdout := EmptyString;
                 errors := "Invalid value of k: " ++ Z_to_string (ksize o) ++ nl;
                 opened := []; written := None |})) /\
  (0 < ksize o -> List.length pos <> 2%nat ->
   run w o pos =
   Ret (Exits {| status := 0; stdout := usage; errors := EmptyString;
                 opened := []; written := None |})).
Proof.
  unfold run. split.
  - intros H. apply Z.leb_le in H. now rewrite H.
  - intros H Hpos.
    replace (ksize o <=? 0) with false by (symmetry; apply Z.leb_gt; lia).
    apply Nat.eqb_neq in Hpos. now rewrite Hpos.
Qed.

(** C8, as the code has it.  When the option loop ends with a key length
    that is not positive, the run ends with status 1 and a message on the
    standard error stream; when it ends with a positive key length and the
    command line has a number of paths other than two, the run ends with
    status 0 and the usage text on the standard output.  In both cases no
    file was opened and no output file written. *)
Theorem configuration_errors :
  forall (w : world) (argv : list string) (rets : list getopt_ret)
         (pos : list string) (o : options),
    getopt_all optstring (hd EmptyString argv) (List.tl argv) = (rets, pos) ->
    parse_options rets default_options = Parsed o ->
    (ksize o <= 0 ->
     main w argv =
     Ret (Exits {| status := 1; stdout := EmptyString;
                   errors := "Invalid value of k: " ++ Z_to_string (ksize o) ++ nl;
                   opened := []; written := None |})) /\
    (0 < ksize o -> List.length pos <> 2%nat ->
     main w argv =
     Ret (Exits {| status := 0; stdout := usage; errors := EmptyString;
                   opened := []; written := None |})).
Proof.
  intros w argv rets pos o Hg Hp. unfold main. rewrite Hg, Hp.
  apply run_configuration_errors.
Qed.

Lemma configuration_errors_witness :
  main world_P6 ["km_diff"; "-k"; "-4"; "left"; "right"] =
  Ret (Exits {| status := 1; stdout := EmptyString;
                errors := "Invalid value of k: -4" ++ nl;
                opened := []; written := None |}) /\
  main world_P6 ["km_diff"; "-k"; "3"; "left"] =
  Ret (Exits {| status := 0; stdout := usage; errors := EmptyString;
                opened := []; written := None |}).
Proof.
  split.
  - apply (configuration_errors world_P6
             ["km_diff"; "-k"; "-4"; "left"; "right"]
             [{| g_c := "k"; g_optarg := "-4"; g_msg := EmptyString |}]
             ["left"; "right"]
             {| ksize := -4; out_fname := None; use_ktcmp := false;
                help_opt := false |}).
    + reflexivity.
    + reflexivity.
    + simpl. lia.
  - apply (configuration_errors world_P6 ["km_diff"; "-k"; "3"; "left"]
             [{| g_c := "k"; g_optarg := "3"; g_msg := EmptyString |}]
             ["left"]
             {| ksize := 3; out_fname := None; use_ktcmp := false;
                help_opt := false |}).
    + reflexivity.
    + reflexivity.
    + simpl. lia.
    + simpl. lia.
Defined.

(** C8, as stated, fails: a command line with one path only is a
    configuration error, and the run ends with status 0. *)
Lemma missing_path_exits_with_zero :
  ~ (forall (w : world) (argv : list string) (o : outcome),
        List.length (snd (getopt_all optstring (hd EmptyString argv) (List.tl argv)))
        <> 2%nat ->
        main w argv = Ret (Exits o) ->
        status o <> 0).
Proof.
  intros H.
  apply (H world_P6 ["km_diff"; "-k"; "3"; "left"]
           {| status := 0; stdout := usage; errors := EmptyString;
              opened := []; written := None |}).
  - simpl. lia.
  - reflexivity.
  - reflexivity.
Qed.

(** ** Reading a stream line by line *)

Lemma over_append (p : ascii -> bool) (a b : string) :
  over p (a ++ b) = over p a && over p b.
Proof.
  induction a as [|c a IH]; simpl; [reflexivity|].
  now rewrite IH, andb_assoc.
Qed.

Lemma over_take (p : ascii -> bool) (n : nat) :
  forall s, over p s = true -> over p (take n s) = true.
Proof.
  induction n as [|n IH]; intros [|c s]; simpl; auto.
  intros H. apply andb_true_iff in H as [Hc Hs]. now rewrite Hc, IH.
Qed.

Lemma over_weaken (p q : ascii -> bool) (s : string) :
  (forall c, p c = true -> q c = true) -> over p s = true -> over q s = true.
Proof.
  intros Hpq. induction s as [|c s IH]; simpl; [reflexivity|].
  intros H. apply andb_true_iff in H as [Hc Hs]. now rewrite (Hpq c Hc), IH.
Qed.

Lemma c_str_id (s : string) : no_NUL s = true -> c_str s = s.
Proof.
  unfold no_NUL. induction s as [|c s IH]; simpl; [reflexivity|].
  intros H. apply andb_true_iff in H as [Hc Hs].
  apply negb_true_iff in Hc. now rewrite Hc, IH.
Qed.

Lemma c_str_no_NUL (s : string) : no_NUL (c_str s) = true.
Proof.
  unfold no_NUL. induction s as [|c s IH]; simpl; [reflexivity|].
  destruct (Ascii.eqb c NUL) eqn:E; simpl; [reflexivity|]. now rewrite E.
Qed.

Lemma chomp_cons (c : ascii) (s : string) :
  is_LF c = false -> chomp (String c s) = String c (chomp s).
Proof. intros H. destruct s; simpl; [now rewrite H | reflexivity]. Qed.

Lemma chomp_cons_cons (c d : ascii) (s : string) :
  chomp (String c (String d s)) = String c (chomp (String d s)).
Proof. reflexivity. Qed.

Lemma chomp_over (p : ascii -> bool) (s : string) :
  over p s = true -> over p (chomp s) = true.
Proof.
  induction s as [|c s IH]; [reflexivity|].
  intros H. simpl in H. apply andb_true_iff in H as [Hc Hs].
  destruct s as [|d s].
  - simpl. destruct (is_LF c); simpl; now rewrite ?Hc.
  - rewrite chomp_cons_cons. specialize (IH Hs).
    remember (chomp (String d s)) as t. simpl. now rewrite Hc, IH.
Qed.

Lemma read_line_spec (s : string) :
  forall l r, read_line s = (l, r) ->
    s = l ++ r /\ no_LF (chomp (c_str l)) = true /\
    (s <> EmptyString -> l <> EmptyString).
Proof.
  induction s as [|c s IH]; simpl; intros l r E.
  - inversion E; subst. repeat split; auto.
  - destruct (is_LF c) eqn:Ec.
    + inversion E; subst. repeat split; try discriminate.
      simpl. destruct (Ascii.eqb c NUL); [reflexivity|]. simpl. now rewrite Ec.
    + destruct (read_line s) as [l' r'] eqn:Er. injection E as <- <-.
      destruct (IH l' r' eq_refl) as (-> & Hl & _).
      repeat split; try discriminate.
      simpl. destruct (Ascii.eqb c NUL); [reflexivity|].
      rewrite chomp_cons by assumption. unfold no_LF in *. simpl.
      now rewrite Ec, Hl.
Qed.

Lemma getline_spec (line stream : string) (n : Z) (buf rest : string) :
  getline line stream = (n, buf, rest) ->
  (stream = EmptyString /\ n = -1 /\ rest = EmptyString) \/
  (stream = buf ++ rest /\ n = Z.of_nat (String.length buf) /\ 0 < n /\
   no_LF (chomp (c_str buf)) = true).
Proof.
  unfold getline. destruct stream as [|c s].
  - intros E; inversion E; auto.
  - destruct (read_line (String c s)) as [l r] eqn:Er.
    intros E; inversion E; subst. right.
    destruct (read_line_spec _ _ _ Er) as (Es & Hl & Hne).
    repeat split; auto.
    destruct buf; [exfalso; apply Hne; [discriminate | reflexivity]|].
    simpl String.length. lia.
Qed.

Lemma getline_buffer_irrelevant (line line' stream : string) :
  stream <> EmptyString ->
  getline line stream = getline line' stream.
Proof. destruct stream; [congruence | reflexivity]. Qed.

Lemma take_length (n : nat) :
  forall s, (n <= String.length s)%nat -> String.length (take n s) = n.
Proof.
  induction n as [|n IH]; intros [|c s]; simpl; intros H; auto; try lia.
  rewrite IH; lia.
Qed.

Lemma take_chomp_c_str (n : nat) :
  forall buf, (n <= String.length buf)%nat ->
    over accepted (take n buf) = true ->
    take n (chomp (c_str buf)) = take n buf.
Proof.
  induction n as [|n IH]; intros buf Hlen Hacc; [reflexivity|].
  destruct buf as [|c buf]; simpl in *; try lia.
  apply andb_true_iff in Hacc as [Hc Hacc].
    destruct (accepted_plain c Hc) as (HN & HL & _).
  rewrite HN, chomp_cons by assumption. simpl.
  rewrite IH; [reflexivity | lia | assumption].
Qed.

Lemma reader_unfold (kmer : string) (ksize : Z) (line stream : string) :
  0 < ksize ->
  (stream = EmptyString /\
   next_kmer_and_line kmer ksize line stream =
   Ret {| r_ok := false; r_kmer := kmer; r_line := c_str line;
          r_stream := EmptyString; r_err := EmptyString |}) \/
  (exists buf rest,
      stream = buf ++ rest /\ buf <> EmptyString /\
      no_LF (chomp (c_str buf)) = true /\
      getline line stream = (Z.of_nat (String.length buf), buf, rest) /\
      next_kmer_and_line kmer ksize line stream =
      if Z.of_nat (String.length buf) <? ksize then
        Ret {| r_ok := false; r_kmer := kmer; r_line := c_str buf;
               r_stream := rest; r_err := EmptyString |}
      else
        r <- check_kmer (Z.to_nat ksize) buf ;;
        if fst r then
          Ret {| r_ok := true; r_kmer := snd r; r_line := chomp (c_str buf);
                 r_stream := rest; r_err := EmptyString |}
        else
          Ret {| r_ok := false; r_kmer := overwrite (snd r) kmer;
                 r_line := c_str buf; r_stream := rest; r_err := warning |}).
Proof.
  intros Hk. unfold next_kmer_and_line.
  destruct (getline line stream) as [[n buf] rest] eqn:Eg.
  destruct (getline_spec _ _ _ _ _ Eg) as [(-> & -> & ->) | (Es & -> & Hn & HLF)].
  - left. split; [reflexivity|].
    replace (-1 <? ksize) with true by (symmetry; apply Z.ltb_lt; lia).
    simpl in Eg. injection Eg as <-. reflexivity.
  - right. exists buf, rest. repeat split; auto.
    intros ->. simpl in Hn. lia.
Qed.

Lemma reader_total (kmer : string) (ksize : Z) (line stream : string) :
  0 < ksize -> over seven_bit stream = true ->
  exists r,
    next_kmer_and_line kmer ksize line stream = Ret r /\
    over seven_bit (r_stream r) = true /\
    (String.length (r_stream r) <= String.length stream)%nat /\
    (r_ok r = true ->
     (String.length (r_stream r) < String.length stream)%nat /\
     row_ok ksize (r_kmer r, r_line r)).
Proof.
  intros Hk H7.
  destruct (reader_unfold kmer ksize line stream Hk)
    as [(-> & E) | (buf & rest & -> & Hne & HLF & _ & E)]; rewrite E; clear E.
  - eexists; split; [reflexivity|]. simpl. repeat split; auto; discriminate.
  - rewrite over_append in H7. apply andb_true_iff in H7 as [H7b H7r].
    assert (Hlen : (String.length rest < String.length (buf ++ rest))%nat).
    { rewrite length_append. destruct buf; [congruence | simpl; lia]. }
    destruct (Z.of_nat (String.length buf) <? ksize) eqn:Elt.
    + eexists; split; [reflexivity|]. simpl.
      repeat split; auto; (lia || discriminate).
    + apply Z.ltb_ge in Elt.
      destruct (check_kmer_spec (Z.to_nat ksize) buf) as (k & Ec & Hkey);
        [lia | now apply over_take |].
      rewrite Ec. simpl.
      destruct (over accepted (take (Z.to_nat ksize) buf)) eqn:Eacc; simpl;
        eexists; (split; [reflexivity|]); simpl;
        repeat split; auto; try lia; try discriminate.
      * rewrite Hkey by reflexivity. apply take_length. lia.
      * now rewrite Hkey.
      * rewrite Hkey by reflexivity. apply take_chomp_c_str; [lia | assumption].
      * apply chomp_over, c_str_no_NUL.
Qed.

Lemma reader_consumes (kmer : string) (ksize : Z) (line stream : string)
      (r : reading) :
  0 < ksize ->
  next_kmer_and_line kmer ksize line stream = Ret r ->
  r_ok r = true ->
  (String.length (r_stream r) < String.length stream)%nat.
Proof.
  intros Hk E Hok.
  destruct (reader_unfold kmer ksize line stream Hk)
    as [(-> & E') | (buf & rest & -> & Hne & _ & _ & E')]; rewrite E' in E.
  - inversion E; subst. discriminate Hok.
  - assert (Hlen : (String.length rest < String.length (buf ++ rest))%nat).
    { rewrite length_append. destruct buf; [congruence | simpl; lia]. }
    destruct (_ <? ksize); [inversion E; subst; discriminate Hok|].
    destruct (check_kmer _ _) as [[[] k]| |]; simpl in E; inversion E; subst;
      simpl in *; (assumption || discriminate).
Qed.

(** The buffers given to the reader matter only to the buffers it leaves
    when it returns false. *)
Lemma reader_buffers (kmer : string) (ksize : Z) (line stream : string)
      (r : reading) :
  0 < ksize ->
  next_kmer_and_line kmer ksize line stream = Ret r ->
  exists r0,
    next_kmer_and_line EmptyString ksize EmptyString stream = Ret r0 /\
    r_ok r0 = r_ok r /\ r_stream r0 = r_stream r /\ r_err r0 = r_err r /\
    (r_ok r = true -> r_kmer r0 = r_kmer r /\ r_line r0 = r_line r).
Proof.
  intros Hk E.
  destruct (reader_unfold kmer ksize line stream Hk)
    as [(-> & E') | (buf & rest & -> & Hne & _ & Hg & E')]; rewrite E' in E.
  - inversion E; subst.
    destruct (reader_unfold EmptyString ksize EmptyString EmptyString Hk)
      as [(_ & E0) | (buf & rest & Hs & Hne & _)].
    + rewrite E0. eexists. split; [reflexivity|]. simpl.
      repeat split; discriminate.
    + destruct buf; [congruence | discriminate Hs].
  - destruct (reader_unfold EmptyString ksize EmptyString (buf ++ rest) Hk)
      as [(Hs & _) | (buf' & rest' & Hs & _ & _ & Hg' & E0)].
    { destruct buf; [congruence | discriminate Hs]. }
    rewrite (getline_buffer_irrelevant EmptyString line) in Hg'
      by (destruct buf; [congruence | discriminate]).
    rewrite Hg in Hg'. injection Hg' as _ <- <-.
    rewrite E0.
    destruct (_ <? ksize).
    + inversion E; subst. eexists. split; [reflexivity|]. simpl.
      repeat split; discriminate.
    + destruct (check_kmer _ _) as [[[] k]| |]; simpl in E |- *;
        inversion E; subst; eexists; (split; [reflexivity|]); simpl;
        repeat split; discriminate.
Qed.

Lemma rows_fuel (ksize : Z) (fuel : nat) :
  0 < ksize ->
  forall (fuel' : nat) (s : string),
    (String.length s < fuel)%nat -> (String.length s < fuel')%nat ->
    rows fuel ksize s = rows fuel' ksize s.
Proof.
  intros Hk. induction fuel as [|fuel IH]; intros [|fuel'] s H H'; try lia.
  simpl. destruct (next_kmer_and_line _ _ _ _) as [r| |] eqn:E; auto.
  destruct (r_ok r) eqn:Eok; auto.
  pose proof (reader_consumes _ _ _ _ _ Hk E Eok).
  f_equal. apply IH; lia.
Qed.

Lemma stream_rows_step (kmer : string) (ksize : Z) (line stream : string)
      (r : reading) :
  0 < ksize ->
  next_kmer_and_line kmer ksize line stream = Ret r ->
  stream_rows ksize stream =
  if r_ok r then (r_kmer r, r_line r) :: stream_rows ksize (r_stream r) else [].
Proof.
  intros Hk E.
  destruct (reader_buffers _ _ _ _ _ Hk E) as (r0 & E0 & Hok & Hs & _ & Hkl).
  unfold stream_rows at 1. simpl. rewrite E0, Hok.
  destruct (r_ok r) eqn:Eok; [|reflexivity].
  destruct (Hkl eq_refl) as [-> ->]. rewrite Hs. f_equal.
  pose proof (reader_consumes _ _ _ _ _ Hk E Eok).
  apply rows_fuel; auto; lia.
Qed.

(** ** The loops on the rows of the streams *)

Lemma advance_1_spec (ksize : Z) (st : state) :
  0 < ksize -> state_ok ksize st ->
  exists st',
    advance_1 ksize st = Ret st' /\ state_ok ksize st' /\
    left_rows ksize st' = stream_rows ksize (mat_1 st) /\
    right_rows ksize st' = right_rows ksize st /\
    has_kmer_2 st' = has_kmer_2 st /\
    mat_2 st' = mat_2 st /\
    outfile st' = outfile st /\
    (has_kmer_1 st' = true ->
     (String.length (mat_1 st') < String.length (mat_1 st))%nat).
Proof.
  intros Hk (H1 & H2 & Hr1 & Hr2). unfold advance_1.
  destruct (reader_total (kmer_1 st) ksize (line_1 st) (mat_1 st) Hk H1)
    as (r & E & H7 & _ & Hok).
  rewrite E. simpl. eexists. split; [reflexivity|].
  unfold state_ok, left_rows, right_rows; simpl.
  rewrite (stream_rows_step _ _ _ _ _ Hk E).
  exact (conj (conj H7 (conj H2 (conj (fun H => proj2 (Hok H)) Hr2)))
           (conj eq_refl (conj eq_refl (conj eq_refl (conj eq_refl
              (conj eq_refl (fun H => proj1 (Hok H)))))))).
Qed.

Lemma advance_2_spec (ksize : Z) (st : state) :
  0 < ksize -> state_ok ksize st ->
  exists st',
    advance_2 ksize st = Ret st' /\ state_ok ksize st' /\
    right_rows ksize st' = stream_rows ksize (mat_2 st) /\
    left_rows ksize st' = left_rows ksize st /\
    has_kmer_1 st' = has_kmer_1 st /\
    mat_1 st' = mat_1 st /\
    outfile st' = outfile st /\
    (has_kmer_2 st' = true ->
     (String.length (mat_2 st') < String.length (mat_2 st))%nat).
Proof.
  intros Hk (H1 & H2 & Hr1 & Hr2). unfold advance_2.
  destruct (reader_total (kmer_2 st) ksize (line_2 st) (mat_2 st) Hk H2)
    as (r & E & H7 & _ & Hok).
  rewrite E. simpl. eexists. split; [reflexivity|].
  unfold state_ok, left_rows, right_rows; simpl.
  rewrite (stream_rows_step _ _ _ _ _ Hk E).
  exact (conj (conj H1 (conj H7 (conj Hr1 (fun H => proj2 (Hok H)))))
           (conj eq_refl (conj eq_refl (conj eq_refl (conj eq_refl
              (conj eq_refl (fun H => proj1 (Hok H)))))))).
Qed.

Lemma merge_rows_nil_l (use_ktcmp : bool) (R : list row) :
  merge_rows use_ktcmp [] R = ([], []).
Proof. destruct R; reflexivity. Qed.

Lemma merge_rows_cons (use_ktcmp : bool) (r1 r2 : row) (L R : list row) :
  merge_rows use_ktcmp (r1 :: L) (r2 :: R) =
  if compare use_ktcmp (fst r1) (fst r2) =? 0 then
    let (out, rest) := merge_rows use_ktcmp L R in (EmptyString :: out, rest)
  else if compare use_ktcmp (fst r1) (fst r2) <? 0 then
    let (out, rest) := merge_rows use_ktcmp L (r2 :: R) in (snd r1 :: out, rest)
  else
    let (out, rest) := merge_rows use_ktcmp (r1 :: L) R in (EmptyString :: out, rest).
Proof. reflexivity. Qed.

Lemma lines_app (a b : list string) : lines (a ++ b) = lines a ++ lines b.
Proof.
  induction a as [|l a IH]; simpl; [reflexivity|].
  now rewrite IH, !append_assoc.
Qed.

Lemma merge_step_spec (ksize : Z) (use_ktcmp : bool) (st : state) :
  0 < ksize -> state_ok ksize st ->
  has_kmer_1 st = true -> has_kmer_2 st = true ->
  exists st',
    merge_step ksize use_ktcmp st = Ret st' /\ state_ok ksize st' /\
    left_rows ksize st' =
      (if compare_keys use_ktcmp st <=? 0
       then stream_rows ksize (mat_1 st) else left_rows ksize st) /\
    right_rows ksize st' =
      (if compare_keys use_ktcmp st <? 0
       then right_rows ksize st else stream_rows ksize (mat_2 st)) /\
    outfile st' =
      outfile st
      ++ (if compare_keys use_ktcmp st <? 0 then line_1 st else EmptyString)
      ++ nl /\
    (has_kmer_1 st' && has_kmer_2 st' = true ->
     (String.length (mat_1 st') + String.length (mat_2 st')
      < String.length (mat_1 st) + String.length (mat_2 st))%nat).
Proof.
  intros Hk Hok Hh1 Hh2.
  assert (Hline : c_str (line_1 st) = line_1 st).
  { destruct Hok as (_ & _ & Hr1 & _). apply c_str_id, (Hr1 Hh1). }
  assert (Hout : forall st', merge_step ksize use_ktcmp st = Ret st' ->
                 outfile st' =
                 outfile st
                 ++ (if compare_keys use_ktcmp st <? 0 then line_1 st
                     else EmptyString) ++ nl).
  { intros st' E. rewrite (merge_step_outfile _ _ _ _ E). now rewrite Hline. }
  unfold merge_step in *.
  destruct (compare_keys use_ktcmp st =? 0) eqn:E0;
    [|destruct (compare_keys use_ktcmp st <? 0) eqn:Elt].
  - apply Z.eqb_eq in E0.
    replace (compare_keys use_ktcmp st <=? 0) with true
      by (symmetry; apply Z.leb_le; lia).
    replace (compare_keys use_ktcmp st <? 0) with false in *
      by (symmetry; apply Z.ltb_ge; lia).
    destruct (advance_1_spec ksize st Hk Hok)
      as (st1 & E1 & Hok1 & HL1 & HR1 & Hh & Hm2 & Ho1 & Hlen1).
    destruct (advance_2_spec ksize st1 Hk Hok1)
      as (st2 & E2 & Hok2 & HR2 & HL2 & Hh' & Hm1 & Ho2 & Hlen2).
    rewrite E1 in *. simpl in *. rewrite E2 in *. simpl in *.
    eexists. split; [reflexivity|].
    split; [exact Hok2|].
    split; [change (left_rows ksize st2 = stream_rows ksize (mat_1 st)); congruence|].
    split; [change (right_rows ksize st2 = stream_rows ksize (mat_2 st)); congruence|].
    split; [apply Hout; reflexivity|].
    intros Hb. apply andb_true_iff in Hb as [Hb1 Hb2]. simpl in Hb1, Hb2 |- *.
    rewrite Hh' in Hb1. specialize (Hlen1 Hb1). specialize (Hlen2 Hb2).
    rewrite Hm1. rewrite Hm2 in Hlen2. lia.
  - apply Z.ltb_lt in Elt as Hlt.
    replace (compare_keys use_ktcmp st <=? 0) with true
      by (symmetry; apply Z.leb_le; lia).
    destruct (advance_1_spec ksize (fputs (line_1 st) st) Hk Hok)
      as (st1 & E1 & Hok1 & HL1 & HR1 & Hh & Hm2 & Ho1 & Hlen1).
    rewrite E1 in *. simpl in *.
    eexists. split; [reflexivity|].
    split; [exact Hok1|].
    split; [exact HL1|].
    split; [exact HR1|].
    split; [apply Hout; reflexivity|].
    intros Hb. apply andb_true_iff in Hb as [Hb1 Hb2]. simpl in Hb1, Hb2 |- *.
    specialize (Hlen1 Hb1). rewrite Hm2. lia.
  - apply Z.ltb_ge in Elt. apply Z.eqb_neq in E0.
    replace (compare_keys use_ktcmp st <=? 0) with false
      by (symmetry; apply Z.leb_gt; lia).
    destruct (advance_2_spec ksize st Hk Hok)
      as (st2 & E2 & Hok2 & HR2 & HL2 & Hh' & Hm1 & Ho2 & Hlen2).
    rewrite E2 in *. simpl in *.
    eexists. split; [reflexivity|].
    split; [exact Hok2|].
    split; [exact HL2|].
    split; [exact HR2|].
    split; [apply Hout; reflexivity|].
    intros Hb. apply andb_true_iff in Hb as [Hb1 Hb2]. simpl in Hb1, Hb2 |- *.
    specialize (Hlen2 Hb2). rewrite Hm1. lia.
Qed.

Lemma merging_spec (ksize : Z) (use_ktcmp : bool) (fuel : nat) :
  0 < ksize ->
  forall st : state,
    state_ok ksize st ->
    (has_kmer_1 st && has_kmer_2 st = true ->
     (String.length (mat_1 st) + String.length (mat_2 st) < fuel)%nat) ->
    exists st',
      merging fuel ksize use_ktcmp st = Ret st' /\ state_ok ksize st' /\
      outfile st' =
        outfile st
        ++ lines (fst (merge_rows use_ktcmp (left_rows ksize st)
                                  (right_rows ksize st))) /\
      left_rows ksize st' =
        snd (merge_rows use_ktcmp (left_rows ksize st) (right_rows ksize st)).
Proof.
  intros Hk. induction fuel as [|fuel IH]; intros st Hok Hfuel;
    destruct (has_kmer_1 st && has_kmer_2 st) eqn:Eb;
    try (specialize (Hfuel eq_refl); lia).
  1, 3: exists st; simpl; rewrite Eb; split; [reflexivity|]; split; [exact Hok|];
    unfold left_rows, right_rows;
    destruct (has_kmer_1 st); [destruct (has_kmer_2 st); [discriminate Eb|]|];
    rewrite ?merge_rows_nil_l; simpl; rewrite append_nil_r; auto.
  specialize (Hfuel eq_refl).
  apply andb_true_iff in Eb as [Hh1 Hh2].
  destruct (merge_step_spec ksize use_ktcmp st Hk Hok Hh1 Hh2)
    as (st1 & E1 & Hok1 & HL & HR & Hout & Hlen).
  destruct (IH st1 Hok1) as (st' & E' & Hok' & Hout' & HL').
  { intros Hb. specialize (Hlen Hb). lia. }
  exists st'. simpl. rewrite Hh1, Hh2, E1. simpl.
  split; [exact E'|]. split; [exact Hok'|].
  assert (EL : left_rows ksize st
               = (kmer_1 st, line_1 st) :: stream_rows ksize (mat_1 st))
    by (unfold left_rows; now rewrite Hh1).
  assert (ER : right_rows ksize st
               = (kmer_2 st, line_2 st) :: stream_rows ksize (mat_2 st))
    by (unfold right_rows; now rewrite Hh2).
  rewrite Hout', HL'. rewrite HL, HR, Hout. rewrite EL, ER.
  clear Hout' HL' IH.
  rewrite merge_rows_cons.
  change (compare use_ktcmp (fst (kmer_1 st, line_1 st)) (fst (kmer_2 st, line_2 st)))
    with (compare_keys use_ktcmp st).
  destruct (compare_keys use_ktcmp st =? 0) eqn:E0;
    [|destruct (compare_keys use_ktcmp st <? 0) eqn:Elt].
  - apply Z.eqb_eq in E0.
    replace (compare_keys use_ktcmp st <=? 0) with true
      by (symmetry; apply Z.leb_le; lia).
    replace (compare_keys use_ktcmp st <? 0) with false
      by (symmetry; apply Z.ltb_ge; lia).
    destruct (merge_rows use_ktcmp _ _) as [out rest].
    split; [|reflexivity]. cbn [fst lines fold_right].
    now rewrite !append_assoc.
  - apply Z.ltb_lt in Elt.
    replace (compare_keys use_ktcmp st <=? 0) with true
      by (symmetry; apply Z.leb_le; lia).
    destruct (merge_rows use_ktcmp _ _) as [out rest].
    split; [|reflexivity]. cbn [fst lines fold_right].
    now rewrite !append_assoc.
  - apply Z.ltb_ge in Elt. apply Z.eqb_neq in E0.
    replace (compare_keys use_ktcmp st <=? 0) with false
      by (symmetry; apply Z.leb_gt; lia).
    destruct (merge_rows use_ktcmp _ _) as [out rest].
    split; [|reflexivity]. cbn [fst lines fold_right].
    now rewrite !append_assoc.
Qed.

Lemma skip_while_over (q p : ascii -> bool) (s : string) :
  over q s = true -> over q (skip_while p s) = true.
Proof.
  induction s as [|c s IH]; simpl; [reflexivity|]. intros H.
  destruct (negb (Ascii.eqb c NUL) && p c); [|exact H].
  apply andb_true_iff in H as [_ H]. auto.
Qed.

Lemma first_column_no_NUL (line : string) :
  no_NUL line = true -> c_str (first_column line) = first_column line.
Proof.
  intros H. apply c_str_id. unfold first_column, no_NUL.
  now do 2 apply skip_while_over.
Qed.

Lemma key_no_NUL (k : string) : over accepted k = true -> c_str k = k.
Proof.
  intros H. apply c_str_id. unfold no_NUL.
  apply (over_weaken accepted); [|exact H].
  intros c Hc. destruct (accepted_plain c Hc) as (-> & _). reflexivity.
Qed.

Lemma pad_zeros_spec (n : nat) :
  forall st : state,
    pad_zeros n st =
    {| has_kmer_1 := has_kmer_1 st; kmer_1 := kmer_1 st; line_1 := line_1 st;
       mat_1 := mat_1 st;
       has_kmer_2 := has_kmer_2 st; kmer_2 := kmer_2 st; line_2 := line_2 st;
       mat_2 := mat_2 st;
       outfile := outfile st ++ zeros n;
       stderr := stderr st |}.
Proof.
  induction n as [|n IH]; intros st.
  - destruct st; simpl. now rewrite append_nil_r.
  - simpl pad_zeros. rewrite IH. simpl. now rewrite append_assoc.
Qed.

Lemma drain_step_spec (ksize n_sample_2 : Z) (st : state) :
  0 < ksize -> state_ok ksize st -> has_kmer_1 st = true ->
  exists st',
    drain_step ksize n_sample_2 st = Ret st' /\ state_ok ksize st' /\
    left_rows ksize st' = stream_rows ksize (mat_1 st) /\
    outfile st' =
      outfile st ++ padded_row n_sample_2 (kmer_1 st, line_1 st) ++ nl /\
    (has_kmer_1 st' = true ->
     (String.length (mat_1 st') < String.length (mat_1 st))%nat).
Proof.
  intros Hk Hok Hh1. unfold drain_step. rewrite pad_zeros_spec.
  match goal with |- exists st', advance_1 ksize ?X = _ /\ _ =>
    destruct (advance_1_spec ksize X Hk Hok)
      as (st1 & E1 & Hok1 & HL1 & _ & _ & _ & Ho1 & Hlen1)
  end.
  exists st1. split; [exact E1|]. split; [exact Hok1|]. split; [exact HL1|].
  split; [|exact Hlen1].
  rewrite Ho1. simpl.
  destruct Hok as (_ & _ & Hr1 & _). destruct (Hr1 Hh1) as (_ & Hacc & _ & HN & _).
  simpl in Hacc, HN.
  rewrite (key_no_NUL _ Hacc), (first_column_no_NUL _ HN).
  unfold padded_row. simpl. rewrite !append_assoc. simpl.
  rewrite !append_assoc. reflexivity.
Qed.

Lemma drain_spec (ksize n_sample_2 : Z) (fuel : nat) :
  0 < ksize ->
  forall st : state,
    state_ok ksize st ->
    (has_kmer_1 st = true -> (String.length (mat_1 st) < fuel)%nat) ->
    exists st',
      drain fuel ksize n_sample_2 st = Ret st' /\
      outfile st' =
        outfile st ++ lines (map (padded_row n_sample_2) (left_rows ksize st)).
Proof.
  intros Hk. induction fuel as [|fuel IH]; intros st Hok Hfuel;
    destruct (has_kmer_1 st) eqn:Hh1;
    try (specialize (Hfuel eq_refl); lia).
  1, 3: exists st; simpl; rewrite Hh1; split; [reflexivity|];
    unfold left_rows; rewrite Hh1; simpl; now rewrite append_nil_r.
  specialize (Hfuel eq_refl).
  destruct (drain_step_spec ksize n_sample_2 st Hk Hok Hh1)
    as (st1 & E1 & Hok1 & HL & Hout & Hlen).
  destruct (IH st1 Hok1) as (st' & E' & Hout').
  { intros Hb. specialize (Hlen Hb). lia. }
  exists st'. simpl. rewrite Hh1, E1. simpl. split; [exact E'|].
  rewrite Hout', Hout, HL. unfold left_rows. rewrite Hh1.
  cbn [map lines fold_right]. now rewrite !append_assoc.
Qed.

Lemma init_spec (ksize : Z) (file_1 file_2 : string) :
  0 < ksize ->
  over seven_bit file_1 = true -> over seven_bit file_2 = true ->
  exists st,
    init ksize file_1 file_2 = Ret (st, width ksize file_2) /\
    state_ok ksize st /\
    left_rows ksize st = stream_rows ksize file_1 /\
    right_rows ksize st = stream_rows ksize file_2 /\
    outfile st = EmptyString.
Proof.
  intros Hk H1 H2. unfold init.
  match goal with |- exists st, (st0 <- advance_1 ksize ?X ;; _) = _ /\ _ =>
    assert (Hok0 : state_ok ksize X)
      by (unfold state_ok; simpl; repeat split; auto; discriminate);
    destruct (advance_1_spec ksize X Hk Hok0)
      as (st1 & E1 & Hok1 & HL1 & HR1 & Hh1 & Hm1 & Ho1 & _)
  end.
  rewrite E1. simpl bind.
  match goal with |- exists st, (st0 <- advance_2 ksize ?X ;; _) = _ /\ _ =>
    destruct (advance_2_spec ksize X Hk Hok1)
      as (st2 & E2 & Hok2 & HR2 & HL2 & Hh2 & Hm2 & Ho2 & _)
  end.
  rewrite E2. simpl bind. simpl in HR2, HL2, Ho2, HL1, Ho1, Hm1.
  rewrite Hm1 in HR2.
  eexists. split.
  { apply f_equal. apply f_equal2; [reflexivity|].
    unfold width. rewrite <- HR2.
    unfold right_rows. now destruct (has_kmer_2 st2). }
  split; [exact Hok2|].
  split; [exact (eq_trans HL2 HL1)|].
  split; [exact HR2|].
  simpl. congruence.
Qed.

(** The output of the two loops, on the rows of the two files. *)
Lemma diff_output (ksize : Z) (use_ktcmp : bool) (file_1 file_2 : string) :
  0 < ksize ->
  over seven_bit file_1 = true -> over seven_bit file_2 = true ->
  exists st,
    diff ksize use_ktcmp file_1 file_2 = Ret st /\
    outfile st =
      lines (fst (merge_rows use_ktcmp (stream_rows ksize file_1)
                             (stream_rows ksize file_2)))
      ++ lines (map (padded_row (width ksize file_2))
                    (snd (merge_rows use_ktcmp (stream_rows ksize file_1)
                                     (stream_rows ksize file_2)))).
Proof.
  intros Hk H1 H2. unfold diff.
  destruct (init_spec ksize file_1 file_2 Hk H1 H2)
    as (st0 & E0 & Hok0 & HL0 & HR0 & Ho0).
  rewrite E0. cbn [bind fst snd].
  destruct (merging_spec ksize use_ktcmp (fuel_of st0) Hk st0 Hok0)
    as (st1 & E1 & Hok1 & Ho1 & HL1).
  { intros _. unfold fuel_of. lia. }
  rewrite E1. cbn [bind].
  destruct (drain_spec ksize (width ksize file_2) (fuel_of st1) Hk st1 Hok1)
    as (st2 & E2 & Ho2).
  { intros _. unfold fuel_of. lia. }
  exists st2. split; [exact E2|].
  rewrite Ho2, Ho1, HL1, Ho0, HL0, HR0. reflexivity.
Qed.

(** ** The draining loop *)

Lemma merge_rows_suffix (use_ktcmp : bool) (L : list row) :
  forall R : list row,
    exists consumed, L = (consumed ++ snd (merge_rows use_ktcmp L R))%list.
Proof.
  induction L as [|r1 L IHL]; intros R.
  - exists []. now rewrite merge_rows_nil_l.
  - induction R as [|r2 R IHR].
    + exists []. reflexivity.
    + rewrite merge_rows_cons.
      destruct (compare use_ktcmp (fst r1) (fst r2) =? 0);
        [|destruct (compare use_ktcmp (fst r1) (fst r2) <? 0)].
      * destruct (IHL R) as (pre & E).
        destruct (merge_rows use_ktcmp L R) as [out rest].
        exists (r1 :: pre). simpl in *. now rewrite <- E.
      * destruct (IHL (r2 :: R)) as (pre & E).
        destruct (merge_rows use_ktcmp L (r2 :: R)) as [out rest].
        exists (r1 :: pre). simpl in *. now rewrite <- E.
      * destruct IHR as (pre & E).
        destruct (merge_rows use_ktcmp (r1 :: L) R) as [out rest].
        exists pre. exact E.
Qed.

(** C6. On files of bytes below 128 and a positive key length, the run
    of the two loops ends, and its output is made of the lines of the
    merging loop followed by one line for each left row still there when
    the merging loop ends, the right stream being exhausted: the key, a
    space, the sample columns of the left row, and as many columns " 0" as
    the first row of the right stream has sample columns, none when the
    right stream has no row. *)
Theorem drain_pads_with_right_width :
  forall (ksize : Z) (use_ktcmp : bool) (file_1 file_2 : string),
    0 < ksize ->
    over seven_bit file_1 = true -> over seven_bit file_2 = true ->
    exists (st : state) (merged : list string) (consumed drained : list row),
      diff ksize use_ktcmp file_1 file_2 = Ret st /\
      merge_rows use_ktcmp (stream_rows ksize file_1) (stream_rows ksize file_2)
      = (merged, drained) /\
      stream_rows ksize file_1 = (consumed ++ drained)%list /\
      outfile st =
        lines merged
        ++ lines (map (fun r => fst r ++ " " ++ first_column (snd r)
                                ++ zeros (Z.to_nat (width ksize file_2)))
                      drained) /\
      width ksize file_2 =
        match stream_rows ksize file_2 with
        | [] => 0
        | r :: _ => samples_number (snd r)
        end /\
      width ksize EmptyString = 0.
Proof.
  intros ksize use_ktcmp file_1 file_2 Hk H1 H2.
  destruct (diff_output ksize use_ktcmp file_1 file_2 Hk H1 H2) as (st & E & Ho).
  destruct (merge_rows_suffix use_ktcmp (stream_rows ksize file_1)
              (stream_rows ksize file_2)) as (consumed & Hc).
  destruct (merge_rows use_ktcmp (stream_rows ksize file_1)
              (stream_rows ksize file_2)) as [merged drained] eqn:Em.
  exists st, merged, consumed, drained.
  split; [exact E|]. split; [reflexivity|]. split; [exact Hc|].
  split; [exact Ho|]. split; [reflexivity|].
  unfold width, stream_rows. simpl.
  destruct (reader_unfold EmptyString ksize EmptyString EmptyString Hk)
    as [(_ & E0) | (buf & rest & Hs & Hne & _)].
  - now rewrite E0.
  - destruct buf; [congruence | discriminate Hs].
Qed.

Lemma drain_pads_with_right_width_witness :
  exists st,
    diff 3 false left_P6 right_P6 = Ret st /\
    outfile st = lines ["AAA 1 2"; ""; ""] ++ lines ["TTT 3 3 0 0"].
Proof.
  destruct (drain_pads_with_right_width 3 false left_P6 right_P6)
    as (st & merged & consumed & drained & E & Em & _ & Ho & _);
    [lia | reflexivity | reflexivity |].
  exists st. split; [exact E|].
  vm_compute in Em. injection Em as <- <-. exact Ho.
Defined.

Lemma skip_blank_head (s : string) :
  is_blank (deref (skip_while is_blank s)) = false.
Proof.
  induction s as [|c s IH]; simpl; [reflexivity|].
  destruct (Ascii.eqb_spec c NUL) as [-> | _]; simpl; [reflexivity|].
  destruct (is_blank c) eqn:E; [exact IH | exact E].
Qed.

(** C10. A row written by the draining loop is the key, one space, and
    the line from its first column on, which starts with neither a space
    nor a tab, then the columns " 0", whatever their number, and a line
    feed; a row written by the merging loop is the line as it was read.
    So a row whose key is followed by two tabs leaves the draining loop
    with one space there, although the right file is empty and no column
    is appended, and leaves the merging loop with its two tabs. *)
Theorem drain_joins_with_one_space :
  forall (ksize n_sample_2 : Z) (use_ktcmp : bool) (st : state),
    0 < ksize -> state_ok ksize st -> has_kmer_1 st = true ->
    (exists st',
        drain_step ksize n_sample_2 st = Ret st' /\
        outfile st' =
          outfile st ++ kmer_1 st ++ " " ++ first_column (line_1 st)
          ++ zeros (Z.to_nat n_sample_2) ++ nl) /\
    is_blank (deref (first_column (line_1 st))) = false /\
    (has_kmer_2 st = true -> compare_keys use_ktcmp st < 0 ->
     exists st',
       merge_step ksize use_ktcmp st = Ret st' /\
       outfile st' = outfile st ++ line_1 st ++ nl) /\
    (exists st',
        diff 3 false tabbed_row EmptyString = Ret st' /\
        width 3 EmptyString = 0 /\
        outfile st' = "AAA 1  2" ++ nl /\ outfile st' <> tabbed_row) /\
    (exists st',
        diff 3 false tabbed_row ("CCC 1" ++ nl) = Ret st' /\
        outfile st' = tabbed_row).
Proof.
  intros ksize n_sample_2 use_ktcmp st Hk Hok Hh1.
  split; [|split; [|split; [|split]]].
  - destruct (drain_step_spec ksize n_sample_2 st Hk Hok Hh1)
      as (st' & E & _ & _ & Ho & _).
    exists st'. split; [exact E|]. rewrite Ho. unfold padded_row. simpl.
    rewrite !append_assoc. simpl. now rewrite !append_assoc.
  - apply skip_blank_head.
  - intros Hh2 Hlt.
    destruct (merge_step_spec ksize use_ktcmp st Hk Hok Hh1 Hh2)
      as (st' & E & _ & _ & _ & Ho & _).
    exists st'. split; [exact E|]. rewrite Ho.
    apply Z.ltb_lt in Hlt. now rewrite Hlt.
  - eexists. split; [vm_compute; reflexivity|].
    repeat split; try reflexivity. discriminate.
  - eexists. split; [vm_compute; reflexivity|]. reflexivity.
Qed.

Lemma drain_joins_with_one_space_witness :
  exists st',
    drain_step 3 0
      {| has_kmer_1 := true; kmer_1 := "AAA"; line_1 := "AAA  1  2";
         mat_1 := EmptyString;
         has_kmer_2 := false; kmer_2 := EmptyString; line_2 := EmptyString;
         mat_2 := EmptyString;
         outfile := EmptyString; stderr := EmptyString |} = Ret st' /\
    outfile st' = "AAA 1  2" ++ nl.
Proof.
  destruct (drain_joins_with_one_space 3 0 false
      {| has_kmer_1 := true; kmer_1 := "AAA"; line_1 := "AAA  1  2";
         mat_1 := EmptyString;
         has_kmer_2 := false; kmer_2 := EmptyString; line_2 := EmptyString;
         mat_2 := EmptyString;
         outfile := EmptyString; stderr := EmptyString |})
    as ((st' & E & Ho) & _).
  - lia.
  - unfold state_ok, row_ok. simpl.
    repeat split; try reflexivity; discriminate.
  - reflexivity.
  - exists st'. split; [exact E | exact Ho].
Defined.

(** ** Malformed rows *)

Lemma advance_1_frame (ksize : Z) (st st' : state) :
  advance_1 ksize st = Ret st' ->
  mat_2 st' = mat_2 st /\ has_kmer_2 st' = has_kmer_2 st.
Proof.
  unfold advance_1.
  destruct (next_kmer_and_line _ _ _ _); simpl; intros E; inversion E; auto.
Qed.

Lemma drain_frame (ksize n_sample_2 : Z) (fuel : nat) :
  forall st st' : state,
    drain fuel ksize n_sample_2 st = Ret st' ->
    mat_2 st' = mat_2 st /\ has_kmer_2 st' = has_kmer_2 st.
Proof.
  induction fuel as [|fuel IH]; intros st st'; simpl;
    destruct (has_kmer_1 st); try discriminate;
    try (intros E; inversion E; auto; fail).
  unfold drain_step. rewrite pad_zeros_spec.
  match goal with |- context [advance_1 ksize ?X] =>
    destruct (advance_1 ksize X) as [st1| |] eqn:E1
  end; simpl; try discriminate.
  intros E. destruct (IH _ _ E) as [-> ->].
  apply (advance_1_frame _ _ _ E1).
Qed.

Lemma over_text_after_open (p : ascii -> bool) (out : option string)
      (path text : string) :
  over p text = true -> over p (text_after_open out path text) = true.
Proof.
  intros H. unfold text_after_open.
  destruct out as [q|]; [destruct (String.eqb q path)|]; auto.
Qed.

(** C9, as the code has it.  With a positive key length: a line shorter
    than the key makes the reader return false without a word; a line
    with a character the reader does not accept among the first of the
    key makes it return false after the warning; a stream whose read
    returned false is not read again by either loop; and the run on two
    files that can be opened, of bytes below 128, ends with status 0. *)
Theorem malformed_row_ends_its_stream :
  forall K : Z,
    0 < K ->
    (forall (kmer line stream : string) (n : Z) (buf rest : string),
        getline line stream = (n, buf, rest) -> 0 <= n < K ->
        next_kmer_and_line kmer K line stream =
        Ret {| r_ok := false; r_kmer := kmer; r_line := c_str buf;
               r_stream := rest; r_err := EmptyString |}) /\
    (forall (kmer line stream : string) (n : Z) (buf rest : string),
        getline line stream = (n, buf, rest) -> K <= n ->
        over seven_bit (take (Z.to_nat K) buf) = true ->
        over accepted (take (Z.to_nat K) buf) = false ->
        exists r,
          next_kmer_and_line kmer K line stream = Ret r /\
          r_ok r = false /\ r_stream r = rest /\ r_err r = warning) /\
    (forall (z : bool) (n : Z) (fuel : nat) (st : state),
        has_kmer_1 st = false ->
        merging fuel K z st = Ret st /\ drain fuel K n st = Ret st) /\
    (forall (z : bool) (n : Z) (fuel : nat) (st : state),
        has_kmer_2 st = false ->
        merging fuel K z st = Ret st /\
        forall st', drain fuel K n st = Ret st' ->
                    mat_2 st' = mat_2 st /\ has_kmer_2 st' = false) /\
    (forall (w : world) (o : options) (path_1 path_2 text_1 text_2 : string),
        ksize o = K -> K < INT_MAX -> help_opt o = false ->
        readable w path_1 = Some text_1 -> readable w path_2 = Some text_2 ->
        over seven_bit text_1 = true -> over seven_bit text_2 = true ->
        match out_fname o with
        | Some p => writable w p = true
        | None => True
        end ->
        exists out,
          run w o [path_1; path_2] = Ret (Exits out) /\ status out = 0).
Proof.
  intros K Hk. split; [|split; [|split; [|split]]].
  - intros kmer line stream n buf rest Hg Hn.
    unfold next_kmer_and_line. rewrite Hg.
    replace (n <? K) with true by (symmetry; apply Z.ltb_lt; lia).
    reflexivity.
  - intros kmer line stream n buf rest Hg Hn H7 Hacc.
    destruct (reader_accepts_table_spec kmer K line stream n buf rest Hk Hg Hn H7)
      as (r & E & Hs & Hiff & _ & Hw).
    exists r. split; [exact E|].
    assert (Hf : r_ok r = false).
    { destruct (r_ok r); [|reflexivity].
      rewrite (proj1 Hiff eq_refl) in Hacc. discriminate Hacc. }
    auto.
  - intros z n fuel st Hh. split; destruct fuel; simpl; now rewrite Hh.
  - intros z n fuel st Hh. split.
    + destruct fuel; simpl; now rewrite Hh, andb_false_r.
    + intros st' E. destruct (drain_frame _ _ _ _ _ E) as [-> ->]. auto.
  - intros w o path_1 path_2 text_1 text_2 <- Hmax Hhelp Hr1 Hr2 H1 H2 Hw.
    unfold run.
    replace (ksize o <=? 0) with false by (symmetry; apply Z.leb_gt; lia).
    rewrite Hhelp. simpl. rewrite Hr1, Hr2.
    replace (match out_fname o with
             | Some p => negb (writable w p)
             | None => false
             end) with false
      by (destruct (out_fname o); [now rewrite Hw | reflexivity]).
    replace (ksize o =? INT_MAX) with false by (symmetry; apply Z.eqb_neq; lia).
    destruct (diff_output (ksize o) (use_ktcmp o)
                (text_after_open (out_fname o) path_1 text_1)
                (text_after_open (out_fname o) path_2 text_2) Hk)
      as (st & E & _); try (now apply over_text_after_open).
    rewrite E. simpl. eexists. split; reflexivity.
Qed.

Lemma malformed_row_ends_its_stream_witness :
  next_kmer_and_line EmptyString 3 EmptyString ("A" ++ nl ++ "CCC 1" ++ nl) =
  Ret {| r_ok := false; r_kmer := EmptyString; r_line := "A" ++ nl;
         r_stream := "CCC 1" ++ nl; r_err := EmptyString |}.
Proof.
  destruct (malformed_row_ends_its_stream 3) as (Hshort & _); [lia|].
  apply (Hshort EmptyString EmptyString ("A" ++ nl ++ "CCC 1" ++ nl) 2
           ("A" ++ nl) ("CCC 1" ++ nl)).
  - reflexivity.
  - lia.
Defined.

(** C9, as stated, fails: a line of two characters, read for keys of
    three, ends its stream and nothing is written about it. *)
Lemma short_line_is_silent :
  ~ (forall (kmer : string) (K : Z) (line stream : string)
            (n : Z) (buf rest : string) (r : reading),
        0 < K ->
        getline line stream = (n, buf, rest) -> 0 <= n < K ->
        next_kmer_and_line kmer K line stream = Ret r ->
        r_ok r = false /\ r_err r <> EmptyString).
Proof.
  intros H.
  destruct (H EmptyString 3 EmptyString ("A" ++ nl ++ "CCC 1" ++ nl) 2
              ("A" ++ nl) ("CCC 1" ++ nl)
              {| r_ok := false; r_kmer := EmptyString; r_line := "A" ++ nl;
                 r_stream := "CCC 1" ++ nl; r_err := EmptyString |})
    as [_ Herr]; try reflexivity; try lia.
  now apply Herr.
Qed.

(** ** Orders on keys *)

Section Order.

(** A comparator that walks two keys over the characters [P] and, at the
    first position where they differ, returns the difference of the
    values [rho] gives to the two characters. *)
Variable cmp : string -> string -> Z.
Variable P : ascii -> bool.
Variable rho : ascii -> Z.

Hypothesis cmp_nil : cmp EmptyString EmptyString = 0.
Hypothesis cmp_cons :
  forall c1 c2 r1 r2, P c1 = true -> P c2 = true ->
    cmp (String c1 r1) (String c2 r2) =
    if Ascii.eqb c1 c2 then cmp r1 r2 else rho c1 - rho c2.
Hypothesis rho_inj :
  forall c1 c2, P c1 = true -> P c2 = true -> rho c1 = rho c2 -> c1 = c2.

Lemma cmp_refl (k : string) : over P k = true -> cmp k k = 0.
Proof.
  induction k as [|c k IH]; simpl; intros H; [exact cmp_nil|].
  apply andb_true_iff in H as [Hc Hk].
  rewrite cmp_cons, Ascii.eqb_refl by assumption. auto.
Qed.

Lemma cmp_eq (k1 : string) :
  forall k2, String.length k1 = String.length k2 ->
    over P k1 = true -> over P k2 = true -> cmp k1 k2 = 0 -> k1 = k2.
Proof.
  induction k1 as [|c1 k1 IH]; intros [|c2 k2] Hlen H1 H2 E;
    try discriminate Hlen; [reflexivity|].
  simpl in H1, H2, Hlen.
  apply andb_true_iff in H1 as [Hc1 Hk1]. apply andb_true_iff in H2 as [Hc2 Hk2].
  rewrite cmp_cons in E by assumption.
  destruct (Ascii.eqb_spec c1 c2) as [-> | Hne].
  - f_equal. apply IH; auto.
  - exfalso. apply Hne, rho_inj; auto. lia.
Qed.

Lemma cmp_antisym (k1 : string) :
  forall k2, String.length k1 = String.length k2 ->
    over P k1 = true -> over P k2 = true -> cmp k1 k2 < 0 -> cmp k2 k1 > 0.
Proof.
  induction k1 as [|c1 k1 IH]; intros [|c2 k2] Hlen H1 H2 E;
    try discriminate Hlen; [rewrite cmp_nil in E; lia|].
  simpl in H1, H2, Hlen.
  apply andb_true_iff in H1 as [Hc1 Hk1]. apply andb_true_iff in H2 as [Hc2 Hk2].
  rewrite cmp_cons in E |- * by assumption.
  rewrite (Ascii.eqb_sym c2 c1).
  destruct (Ascii.eqb c1 c2); [apply IH; auto | lia].
Qed.

Lemma cmp_trans (strict : bool) (k1 : string) :
  forall k2 k3,
    String.length k1 = String.length k2 -> String.length k2 = String.length k3 ->
    over P k1 = true -> over P k2 = true -> over P k3 = true ->
    cmp k1 k2 < (if strict then 0 else 1) ->
    cmp k2 k3 < (if strict then 0 else 1) ->
    cmp k1 k3 < (if strict then 0 else 1).
Proof.
  induction k1 as [|c1 k1 IH]; intros [|c2 k2] [|c3 k3] L12 L23 H1 H2 H3 E12 E23;
    try discriminate; [exact E12|].
  simpl in H1, H2, H3, L12, L23.
  apply andb_true_iff in H1 as [Hc1 Hk1]. apply andb_true_iff in H2 as [Hc2 Hk2].
  apply andb_true_iff in H3 as [Hc3 Hk3].
  rewrite cmp_cons in E12, E23 |- * by assumption.
  destruct (Ascii.eqb_spec c1 c2) as [-> | N12];
    destruct (Ascii.eqb_spec c2 c3) as [-> | N23].
  - apply (IH k2 k3); auto.
  - exact E23.
  - destruct (Ascii.eqb_spec c1 c3); [contradiction | exact E12].
  - destruct (Ascii.eqb_spec c1 c3) as [-> | N13].
    + exfalso. apply N12, rho_inj; auto. destruct strict; lia.
    + destruct strict; lia.
Qed.

End Order.

Lemma compare_nil (z : bool) : compare z EmptyString EmptyString = 0.
Proof. destruct z; reflexivity. Qed.

Lemma compare_cons (z : bool) (c1 c2 : ascii) (r1 r2 : string) :
  alphabet z c1 = true -> alphabet z c2 = true ->
  compare z (String c1 r1) (String c2 r2) =
  if Ascii.eqb c1 c2 then compare z r1 r2 else value z c1 - value z c2.
Proof.
  destruct z; unfold alphabet, value, compare; intros H1 H2.
  - now apply ktcmp_cons.
  - simpl. destruct (accepted_plain c1 H1) as (-> & _). reflexivity.
Qed.

Lemma value_injective (z : bool) (c1 c2 : ascii) :
  alphabet z c1 = true -> alphabet z c2 = true ->
  value z c1 = value z c2 -> c1 = c2.
Proof.
  destruct z; unfold alphabet, value; intros H1 H2 E.
  - now apply rank_injective.
  - unfold uchar in E. apply Nat2Z.inj in E.
    rewrite <- (ascii_nat_embedding c1), <- (ascii_nat_embedding c2).
    now rewrite E.
Qed.

#[local] Hint Resolve compare_nil compare_cons value_injective : key_order.

Lemma compare_refl (z : bool) (n : nat) (k : string) :
  is_key z n k -> compare z k k = 0.
Proof.
  intros [_ Pk].
  apply (cmp_refl (compare z) (alphabet z) (value z)); order_facts.
Qed.

Lemma compare_eq (z : bool) (n : nat) (k1 k2 : string) :
  is_key z n k1 -> is_key z n k2 -> compare z k1 k2 = 0 -> k1 = k2.
Proof.
  intros [L1 P1] [L2 P2] E.
  apply (cmp_eq (compare z) (alphabet z) (value z)); order_facts.
Qed.

Lemma compare_antisym (z : bool) (n : nat) (k1 k2 : string) :
  is_key z n k1 -> is_key z n k2 -> compare z k1 k2 < 0 -> compare z k2 k1 > 0.
Proof.
  intros [L1 P1] [L2 P2] E.
  apply (cmp_antisym (compare z) (alphabet z) (value z)); order_facts.
Qed.

Lemma compare_trans (z : bool) (n : nat) (strict : bool) (k1 k2 k3 : string) :
  is_key z n k1 -> is_key z n k2 -> is_key z n k3 ->
  compare z k1 k2 < (if strict then 0 else 1) ->
  compare z k2 k3 < (if strict then 0 else 1) ->
  compare z k1 k3 < (if strict then 0 else 1).
Proof.
  intros [L1 P1] [L2 P2] [L3 P3] E12 E23.
  apply (cmp_trans (compare z) (alphabet z) (value z)) with (k2 := k2);
    order_facts.
Qed.

Lemma sorted_strongly (z : bool) (n : nat) (strict : bool) (ks : list string) :
  Forall (is_key z n) ks ->
  Sorted (fun a b => compare z a b < (if strict then 0 else 1)) ks ->
  StronglySorted (fun a b => compare z a b < (if strict then 0 else 1)) ks.
Proof.
  induction 1 as [|k ks Hk Hks IH]; intros HS; [constructor|].
  apply Sorted_inv in HS as [HS Hhd].
  specialize (IH HS). constructor; [exact IH|].
  destruct Hhd as [|k' ks' Hkk']; [constructor|].
  apply StronglySorted_inv in IH as [_ Hall].
  inversion Hks as [|? ? Hk' Hks']; subst.
  constructor; [exact Hkk'|].
  rewrite Forall_forall in Hall, Hks' |- *. intros x Hx.
  apply (compare_trans z n strict k k' x); auto.
Qed.

Lemma mem_cons (k k2 : string) (ks : list string) :
  mem k (k2 :: ks) = String.eqb k k2 || mem k ks.
Proof. reflexivity. Qed.

Lemma mem_false (k : string) (ks : list string) :
  (forall x, In x ks -> x <> k) -> mem k ks = false.
Proof.
  induction ks as [|x ks IH]; intros H; [reflexivity|].
  rewrite mem_cons, IH by (intros y Hy; apply H; now right).
  destruct (String.eqb_spec k x) as [-> | _]; [|reflexivity].
  exfalso. apply (H x); [now left | reflexivity].
Qed.

Lemma take_append_exact (k x : string) : take (String.length k) (k ++ x) = k.
Proof.
  induction k as [|c k IH]; simpl; [now destruct x | now rewrite IH].
Qed.

(** The keys of the lines the merging loop writes, with the keys of the
    rows it leaves to the draining loop, are the left keys that are not in
    the right stream. *)
Lemma merge_rows_keys (z : bool) (ksize : Z) :
  0 < ksize ->
  forall L : list row,
    Forall (row_ok ksize) L ->
    Forall (is_key z (Z.to_nat ksize)) (keys L) ->
    StronglySorted (fun a b => compare z a b < 0) (keys L) ->
    forall R : list row,
      Forall (is_key z (Z.to_nat ksize)) (keys R) ->
      StronglySorted (fun a b => compare z a b < 1) (keys R) ->
      (map (take (Z.to_nat ksize))
           (filter (fun l => negb (is_empty l)) (fst (merge_rows z L R)))
       ++ keys (snd (merge_rows z L R)))%list
      = filter (fun k => negb (mem k (keys R))) (keys L).
Proof.
  intros Hk.
  assert (Hrefl : forall k, is_key z (Z.to_nat ksize) k -> compare z k k = 0)
    by (intros k; apply compare_refl).
  induction L as [|r1 L IHL]; intros HokL HkL HsL R HkR HsR.
  - now rewrite merge_rows_nil_l.
  - inversion HokL as [|? ? Hok1 HokL']; subst.
    simpl keys in HkL, HsL.
    inversion HkL as [|? ? Hk1 HkL']; subst.
    apply StronglySorted_inv in HsL as [HsL' Hlt1].
    specialize (IHL HokL' HkL' HsL').
    induction R as [|r2 R IHR].
    + simpl. f_equal. symmetry. apply forallb_filter_id.
      now apply forallb_forall.
    + simpl keys in HkR, HsR.
      inversion HkR as [|? ? Hk2 HkR']; subst.
      apply StronglySorted_inv in HsR as [HsR' Hle2].
      specialize (IHR HkR' HsR').
      rewrite Forall_forall in Hlt1, Hle2.
      rewrite merge_rows_cons.
      destruct (compare z (fst r1) (fst r2) =? 0) eqn:E0;
        [|destruct (compare z (fst r1) (fst r2) <? 0) eqn:Elt].
      * apply Z.eqb_eq in E0.
        assert (E : fst r1 = fst r2)
          by (apply (compare_eq z (Z.to_nat ksize)); assumption).
        specialize (IHL R HkR' HsR').
        destruct (merge_rows z L R) as [out rest]. simpl in IHL |- *.
        rewrite IHL, E, String.eqb_refl. simpl.
        apply filter_ext_in. intros x Hx.
        destruct (String.eqb_spec x (fst r2)) as [-> | _]; [|reflexivity].
        exfalso. specialize (Hlt1 _ Hx). rewrite E, (Hrefl _ Hk2) in Hlt1. lia.
      * apply Z.ltb_lt in Elt.
        specialize (IHL (r2 :: R) HkR).
        destruct (merge_rows z L (r2 :: R)) as [out rest].
        simpl in IHL |- *.
        assert (Hne : is_empty (snd r1) = false).
        { destruct Hok1 as (Ln & _ & Ht & _). destruct (snd r1); [|reflexivity].
          rewrite <- Ht in Ln. destruct (Z.to_nat ksize) eqn:En; [lia|].
          discriminate Ln. }
        rewrite Hne. simpl.
        replace (take (Z.to_nat ksize) (snd r1)) with (fst r1)
          by (symmetry; apply Hok1).
        rewrite IHL by (constructor; [exact HsR' | now apply Forall_forall]).
        replace (String.eqb (fst r1) (fst r2)) with false.
        2:{ symmetry. apply String.eqb_neq. intros E.
            rewrite E, (Hrefl _ Hk2) in Elt. lia. }
        rewrite mem_false; [reflexivity|].
        intros x Hx ->. specialize (Hle2 _ Hx).
        assert (compare z (fst r2) (fst r1) > 0); [|lia].
        apply (compare_antisym z (Z.to_nat ksize)); assumption.
      * apply Z.ltb_ge in Elt. apply Z.eqb_neq in E0.
        destruct (merge_rows z (r1 :: L) R) as [out rest].
        simpl in IHR |- *. rewrite IHR.
        assert (Hext : forall x, In x (fst r1 :: keys L) ->
                         String.eqb x (fst r2) = false).
        { intros x Hx. apply String.eqb_neq. intros ->.
          destruct Hx as [E | Hx].
          - rewrite E, (Hrefl _ Hk2) in E0. now apply E0.
          - specialize (Hlt1 _ Hx). lia. }
        rewrite (Hext (fst r1)) by now left. simpl.
        destruct (negb (mem (fst r1) (keys R))); [f_equal|];
          apply filter_ext_in; intros x Hx;
          rewrite (Hext x) by (now right); reflexivity.
Qed.

(** ** The keys of the output *)

Lemma text_lines_line (l rest : string) :
  no_LF l = true -> text_lines (l ++ nl ++ rest) = l :: text_lines rest.
Proof.
  unfold no_LF. induction l as [|c l IH]; intros H; [reflexivity|].
  simpl in H. apply andb_true_iff in H as [Hc Hl].
  apply negb_true_iff in Hc.
  specialize (IH Hl).
  change (text_lines (String c (l ++ nl ++ rest)) = String c l :: text_lines rest).
  remember (l ++ nl ++ rest) as t. simpl. now rewrite Hc, IH.
Qed.

Lemma text_lines_lines (ls : list string) :
  Forall (fun l => no_LF l = true) ls -> text_lines (lines ls) = ls.
Proof.
  induction 1 as [|l ls Hl _ IH]; [reflexivity|].
  change (lines (l :: ls)) with (l ++ nl ++ lines ls).
  now rewrite text_lines_line, IH.
Qed.

Lemma rows_ok (ksize : Z) (fuel : nat) :
  0 < ksize ->
  forall s, over seven_bit s = true -> Forall (row_ok ksize) (rows fuel ksize s).
Proof.
  intros Hk. induction fuel as [|fuel IH]; intros s H7; simpl; [constructor|].
  destruct (reader_total EmptyString ksize EmptyString s Hk H7)
    as (r & E & H7' & _ & Hok).
  rewrite E. destruct (r_ok r); [|constructor].
  constructor; [apply Hok; reflexivity | apply IH, H7'].
Qed.

Lemma merged_no_LF (z : bool) (ksize : Z) (L : list row) :
  Forall (row_ok ksize) L ->
  forall R, Forall (fun l => no_LF l = true) (fst (merge_rows z L R)).
Proof.
  induction 1 as [|r1 L Hr1 _ IHL]; intros R.
  - rewrite merge_rows_nil_l. constructor.
  - induction R as [|r2 R IHR]; [constructor|].
    rewrite merge_rows_cons.
    destruct (compare z (fst r1) (fst r2) =? 0);
      [|destruct (compare z (fst r1) (fst r2) <? 0)].
    + specialize (IHL R). destruct (merge_rows z L R). now constructor.
    + specialize (IHL (r2 :: R)). destruct (merge_rows z L (r2 :: R)).
      constructor; [apply Hr1 | exact IHL].
    + destruct (merge_rows z (r1 :: L) R). now constructor.
Qed.

Lemma zeros_no_LF (n : nat) : no_LF (zeros n) = true.
Proof. induction n as [|n IH]; [reflexivity | exact IH]. Qed.

Lemma accepted_no_LF (k : string) : over accepted k = true -> no_LF k = true.
Proof.
  apply over_weaken. intros c Hc.
  destruct (accepted_plain c Hc) as (_ & -> & _). reflexivity.
Qed.

Lemma padded_row_facts (ksize n : Z) (r : row) :
  0 < ksize -> row_ok ksize r ->
  no_LF (padded_row n r) = true /\
  is_empty (padded_row n r) = false /\
  take (Z.to_nat ksize) (padded_row n r) = fst r.
Proof.
  intros Hk (Ln & Hacc & _ & _ & HLF). unfold padded_row. split; [|split].
  - pose proof (accepted_no_LF _ Hacc) as HA.
    pose proof (zeros_no_LF (Z.to_nat n)) as HZ.
    unfold no_LF in *. rewrite !over_append, HA. simpl.
    unfold first_column.
    rewrite skip_while_over by (apply skip_while_over; exact HLF).
    exact HZ.
  - destruct (fst r); [|reflexivity].
    simpl in Ln. lia.
  - rewrite <- Ln. apply take_append_exact.
Qed.

Lemma drained_keys (ksize n : Z) (rest : list row) :
  0 < ksize -> Forall (row_ok ksize) rest ->
  map (take (Z.to_nat ksize))
      (filter (fun l => negb (is_empty l)) (map (padded_row n) rest))
  = keys rest.
Proof.
  intros Hk. induction 1 as [|r rest Hr _ IH]; [reflexivity|].
  destruct (padded_row_facts ksize n r Hk Hr) as (_ & Hne & Ht).
  simpl. rewrite Hne. simpl. now rewrite Ht, IH.
Qed.

Lemma Sorted_weaken (A : Type) (R R' : A -> A -> Prop) (l : list A) :
  (forall a b, R a b -> R' a b) -> Sorted R l -> Sorted R' l.
Proof.
  intros H. induction 1 as [|a l _ IH Hhd]; constructor; [exact IH|].
  destruct Hhd; constructor; auto.
Qed.

(** C1, as the code has it.  On two files of bytes below 128 whose left
    rows have strictly increasing keys and whose right rows have keys in
    non-decreasing order under the comparator in use, all keys being over
    A, C, G, T when that comparator is [ktcmp], the run of the two loops
    ends and the keys of the rows of its output are, in their order, the
    left keys that are not a key of the right stream. *)
Theorem emitted_keys_are_the_difference :
  forall (ksize : Z) (use_ktcmp : bool) (file_1 file_2 : string),
    0 < ksize ->
    over seven_bit file_1 = true -> over seven_bit file_2 = true ->
    (use_ktcmp = true ->
     Forall (fun k => over nucleotide k = true)
            (keys (stream_rows ksize file_1) ++ keys (stream_rows ksize file_2))) ->
    increasing use_ktcmp (keys (stream_rows ksize file_1)) ->
    non_decreasing use_ktcmp (keys (stream_rows ksize file_2)) ->
    exists st,
      diff ksize use_ktcmp file_1 file_2 = Ret st /\
      emitted_keys ksize (outfile st) =
      filter (fun k => negb (mem k (keys (stream_rows ksize file_2))))
             (keys (stream_rows ksize file_1)).
Proof.
  intros ksize z file_1 file_2 Hk H1 H2 Hnuc Hinc Hnd.
  destruct (diff_output ksize z file_1 file_2 Hk H1 H2) as (st & E & Ho).
  exists st. split; [exact E|].
  pose proof (rows_ok ksize (S (String.length file_1)) Hk file_1 H1) as HokL.
  pose proof (rows_ok ksize (S (String.length file_2)) Hk file_2 H2) as HokR.
  fold (stream_rows ksize file_1) in HokL. fold (stream_rows ksize file_2) in HokR.
  set (L := stream_rows ksize file_1) in *.
  set (R := stream_rows ksize file_2) in *.
  assert (Hkeys : forall X, Forall (row_ok ksize) X ->
                    (z = true -> Forall (fun k => over nucleotide k = true) (keys X)) ->
                    Forall (is_key z (Z.to_nat ksize)) (keys X)).
  { intros X HX HnX. unfold keys. rewrite Forall_map.
    rewrite Forall_forall in HX |- *. intros r Hr.
    destruct (HX r Hr) as (Ln & Hacc & _). split; [exact Ln|].
    destruct z; [|exact Hacc].
    specialize (HnX eq_refl). unfold keys in HnX.
    rewrite Forall_map, Forall_forall in HnX. now apply HnX. }
  assert (HkL : Forall (is_key z (Z.to_nat ksize)) (keys L)).
  { apply Hkeys; [exact HokL|]. intros Hz.
    exact (proj1 (proj1 (Forall_app _ _ _) (Hnuc Hz))). }
  assert (HkR : Forall (is_key z (Z.to_nat ksize)) (keys R)).
  { apply Hkeys; [exact HokR|]. intros Hz.
    exact (proj2 (proj1 (Forall_app _ _ _) (Hnuc Hz))). }
  pose proof (sorted_strongly z _ true _ HkL Hinc) as HsL.
  assert (HsR : StronglySorted (fun a b => compare z a b < 1) (keys R)).
  { apply (sorted_strongly z _ false _ HkR).
    apply (Sorted_weaken _ _ _ _ (fun a b (H : compare z a b <= 0) =>
                                     Z.lt_le_trans _ _ _ (Z.le_lt_trans _ _ _ H Z.lt_0_1)
                                                   (Z.le_refl 1)) Hnd). }
  pose proof (merge_rows_keys z ksize Hk L HokL HkL HsL R HkR HsR) as Hm.
  destruct (merge_rows_suffix z L R) as (consumed & Hc).
  pose proof (merged_no_LF z ksize L HokL R) as HLF.
  destruct (merge_rows z L R) as [merged drained]. simpl in *.
  assert (Hokd : Forall (row_ok ksize) drained).
  { rewrite Hc in HokL. exact (proj2 (proj1 (Forall_app _ _ _) HokL)). }
  unfold emitted_keys, output_rows.
  rewrite Ho, <- lines_app, text_lines_lines.
  - rewrite filter_app, map_app, (drained_keys ksize _ drained Hk Hokd).
    exact Hm.
  - apply Forall_app. split; [exact HLF|].
    rewrite Forall_map. rewrite Forall_forall in Hokd |- *.
    intros r Hr. apply (padded_row_facts ksize _ r Hk (Hokd r Hr)).
Qed.

Lemma emitted_keys_are_the_difference_witness :
  exists st,
    diff 3 true (lines ["AAA 1"; "ATA 2"; "AGA 3"]) (lines ["ATA 7"; "AGG 8"])
    = Ret st /\
    emitted_keys 3 (outfile st) = ["AAA"; "AGA"].
Proof.
  destruct (emitted_keys_are_the_difference 3 true
              (lines ["AAA 1"; "ATA 2"; "AGA 3"]) (lines ["ATA 7"; "AGG 8"]))
    as (st & E & Hkeys).
  - lia.
  - reflexivity.
  - reflexivity.
  - intros _.
    change (Forall (fun k => over nucleotide k = true)
                   ["AAA"; "ATA"; "AGA"; "ATA"; "AGG"]).
    repeat constructor.
  - change (Sorted (fun a b => compare true a b < 0) ["AAA"; "ATA"; "AGA"]).
    repeat constructor.
  - change (Sorted (fun a b => compare true a b <= 0) ["ATA"; "AGG"]).
    repeat constructor; discriminate.
  - exists st. split; [exact E | exact Hkeys].
Defined.

(** C1, as stated, fails: with keys of one character, the left rows
    "A 1" and "A 2" and the right row "A 1" are in non-decreasing order;
    the first left row is dropped with the right row, and the second is
    written although its key is a key of the right stream. *)
Lemma repeated_left_key_is_emitted :
  ~ (forall (ksize : Z) (use_ktcmp : bool) (file_1 file_2 : string) (st : state),
        non_decreasing use_ktcmp (keys (stream_rows ksize file_1)) ->
        non_decreasing use_ktcmp (keys (stream_rows ksize file_2)) ->
        diff ksize use_ktcmp file_1 file_2 = Ret st ->
        emitted_keys ksize (outfile st) =
        filter (fun k => negb (mem k (keys (stream_rows ksize file_2))))
               (keys (stream_rows ksize file_1))).
Proof.
  intros H.
  assert (Hrun : exists st,
             diff 1 false (lines ["A 1"; "A 2"]) (lines ["A 1"]) = Ret st /\
             emitted_keys 1 (outfile st) = ["A"]).
  { eexists. split; vm_compute; reflexivity. }
  destruct Hrun as (st & E & Hkeys).
  specialize (H 1 false (lines ["A 1"; "A 2"]) (lines ["A 1"]) st).
  assert (Hl : non_decreasing false (keys (stream_rows 1 (lines ["A 1"; "A 2"])))).
  { change (Sorted (fun a b => compare false a b <= 0) ["A"; "A"]).
    repeat constructor; discriminate. }
  assert (Hr : non_decreasing false (keys (stream_rows 1 (lines ["A 1"])))).
  { change (Sorted (fun a b => compare false a b <= 0) ["A"]).
    repeat constructor. }
  specialize (H Hl Hr E). rewrite Hkeys in H.
  vm_compute in H. discriminate H.
Qed.


(** * Further properties *)

(** ** The comparators on arbitrary strings *)

Lemma strcmp_refl (k : string) : strcmp k k = 0.
Proof.
  induction k as [|c k IH]; [reflexivity|]. simpl.
  destruct (Ascii.eqb_spec c NUL) as [-> | _]; [reflexivity|].
  now rewrite Ascii.eqb_refl.
Qed.

Lemma ktcmp_refl_any (k : string) : ktcmp k k = 0.
Proof.
  induction k as [|c k IH]; [reflexivity|]. simpl.
  rewrite Ascii.eqb_refl.
  destruct (Ascii.eqb_spec c NUL) as [-> | _]; [reflexivity | exact IH].
Qed.

(** X1. Either comparator returns zero on a string and itself, whatever
    its characters and its length. *)
Theorem comparators_reflexive :
  forall (use_ktcmp : bool) (k : string), compare use_ktcmp k k = 0.
Proof.
  intros [|] k; [apply ktcmp_refl_any | apply strcmp_refl].
Qed.

Lemma compare_opp (z : bool) (n : nat) (k1 : string) :
  forall k2, is_key z n k1 -> is_key z n k2 ->
    compare z k2 k1 = - compare z k1 k2.
Proof.
  revert n. induction k1 as [|c1 k1 IH]; intros n [|c2 k2] [L1 P1] [L2 P2];
    simpl in L1, L2; try congruence.
  - now rewrite compare_nil.
  - simpl in P1, P2.
    apply andb_true_iff in P1 as [Hc1 Hk1]. apply andb_true_iff in P2 as [Hc2 Hk2].
    rewrite !compare_cons by assumption. rewrite (Ascii.eqb_sym c2 c1).
    destruct (Ascii.eqb c1 c2); [|lia].
    apply (IH (String.length k1)); split; auto; congruence.
Qed.

(** X2. On keys of one length made of characters the reader accepts,
    [strcmp] is a strict total order: it returns zero on equal keys only,
    swapping the keys changes the sign of the result, and negative results
    chain. *)
Theorem strcmp_orders_accepted_keys :
  forall (n : nat) (k1 k2 k3 : string),
    String.length k1 = n -> String.length k2 = n -> String.length k3 = n ->
    over accepted k1 = true -> over accepted k2 = true ->
    over accepted k3 = true ->
    (strcmp k1 k2 = 0 <-> k1 = k2) /\
    strcmp k2 k1 = - strcmp k1 k2 /\
    (strcmp k1 k2 < 0 -> strcmp k2 k3 < 0 -> strcmp k1 k3 < 0).
Proof.
  intros n k1 k2 k3 L1 L2 L3 P1 P2 P3.
  assert (K1 : is_key false n k1) by (split; assumption).
  assert (K2 : is_key false n k2) by (split; assumption).
  assert (K3 : is_key false n k3) by (split; assumption).
  split; [split|split].
  - apply (compare_eq false n); assumption.
  - intros ->. apply strcmp_refl.
  - apply (compare_opp false n); assumption.
  - apply (compare_trans false n true k1 k2 k3); assumption.
Qed.

Lemma strcmp_orders_accepted_keys_witness :
  (strcmp "ACn" "ACn" = 0 <-> "ACn" = "ACn") /\
  strcmp "ACn" "ACG" = - strcmp "ACG" "ACn" /\
  (strcmp "ACG" "ACn" < 0 -> strcmp "ACn" "Taa" < 0 -> strcmp "ACG" "Taa" < 0).
Proof.
  pose proof (strcmp_orders_accepted_keys 3 "ACG" "ACn" "Taa"
                eq_refl eq_refl eq_refl eq_refl eq_refl eq_refl) as (_ & H2 & H3).
  pose proof (strcmp_orders_accepted_keys 3 "ACn" "ACn" "Taa"
                eq_refl eq_refl eq_refl eq_refl eq_refl eq_refl) as (H1 & _).
  exact (conj H1 (conj H2 H3)).
Defined.

(** X3. On keys of one length over A, C, G, T, [ktcmp] is a strict total
    order: it returns zero on equal keys only, swapping the keys changes
    the sign of the result, and negative results chain. *)
Theorem ktcmp_orders_nucleotide_keys :
  forall (n : nat) (k1 k2 k3 : string),
    String.length k1 = n -> String.length k2 = n -> String.length k3 = n ->
    over nucleotide k1 = true -> over nucleotide k2 = true ->
    over nucleotide k3 = true ->
    (ktcmp k1 k2 = 0 <-> k1 = k2) /\
    ktcmp k2 k1 = - ktcmp k1 k2 /\
    (ktcmp k1 k2 < 0 -> ktcmp k2 k3 < 0 -> ktcmp k1 k3 < 0).
Proof.
  intros n k1 k2 k3 L1 L2 L3 P1 P2 P3.
  assert (K1 : is_key true n k1) by (split; assumption).
  assert (K2 : is_key true n k2) by (split; assumption).
  assert (K3 : is_key true n k3) by (split; assumption).
  split; [split|split].
  - apply (compare_eq true n); assumption.
  - intros ->. apply ktcmp_refl_any.
  - apply (compare_opp true n); assumption.
  - apply (compare_trans true n true k1 k2 k3); assumption.
Qed.

Lemma ktcmp_orders_nucleotide_keys_witness :
  (ktcmp "ACT" "ACT" = 0 <-> "ACT" = "ACT") /\
  ktcmp "ACG" "ACT" = - ktcmp "ACT" "ACG" /\
  (ktcmp "ACT" "ACG" < 0 -> ktcmp "ACG" "TAA" < 0 -> ktcmp "ACT" "TAA" < 0).
Proof.
  pose proof (ktcmp_orders_nucleotide_keys 3 "ACT" "ACG" "TAA"
                eq_refl eq_refl eq_refl eq_refl eq_refl eq_refl) as (_ & H2 & H3).
  pose proof (ktcmp_orders_nucleotide_keys 3 "ACT" "ACT" "TAA"
                eq_refl eq_refl eq_refl eq_refl eq_refl eq_refl) as (H1 & _).
  exact (conj H1 (conj H2 H3)).
Defined.

Lemma no_NUL_cons (c : ascii) (p : string) :
  no_NUL (String c p) = true -> Ascii.eqb c NUL = false /\ no_NUL p = true.
Proof.
  unfold no_NUL. simpl. intros H. apply andb_true_iff in H as [Hc Hp].
  apply negb_true_iff in Hc. auto.
Qed.

Lemma first_difference_any :
  forall (p : string) (c1 c2 : ascii) (r1 r2 : string),
    no_NUL p = true -> c1 <> c2 ->
    ktcmp (p ++ String c1 r1) (p ++ String c2 r2) = n2kt c1 - n2kt c2 /\
    strcmp (p ++ String c1 r1) (p ++ String c2 r2) = uchar c1 - uchar c2 /\
    strcmp (p ++ String c1 r1) (p ++ String c2 r2) <> 0.
Proof.
  intros p c1 c2 r1 r2 Hp Hne.
  assert (Hu : uchar c1 - uchar c2 <> 0).
  { intros E. apply Hne. unfold uchar in E.
    assert (E' : nat_of_ascii c1 = nat_of_ascii c2) by lia.
    rewrite <- (ascii_nat_embedding c1), <- (ascii_nat_embedding c2).
    now rewrite E'. }
  apply Ascii.eqb_neq in Hne.
  induction p as [|c p IH].
  - simpl. rewrite Hne, andb_false_r.
    destruct (Ascii.eqb_spec c1 NUL) as [-> | _]; auto.
  - apply no_NUL_cons in Hp as [Hc Hp]. specialize (IH Hp).
    simpl. rewrite Hc, Ascii.eqb_refl. simpl. exact IH.
Qed.

(** X4. Whatever the bytes, the first position where two strings differ
    decides: after a common prefix without NUL, [ktcmp] returns the
    difference of the values [n2kt] gives the two differing characters,
    and [strcmp] the difference of the two bytes, which is not zero;
    what follows the two characters is not looked at. *)
Theorem first_difference_decides :
  forall (p : string) (c1 c2 : ascii) (r1 r2 : string),
    no_NUL p = true -> c1 <> c2 ->
    ktcmp (p ++ String c1 r1) (p ++ String c2 r2) = n2kt c1 - n2kt c2 /\
    strcmp (p ++ String c1 r1) (p ++ String c2 r2) = uchar c1 - uchar c2 /\
    strcmp (p ++ String c1 r1) (p ++ String c2 r2) <> 0.
Proof.
  intros p c1 c2 r1 r2 Hp Hne.
  exact (first_difference_any p c1 c2 r1 r2 Hp Hne).
Qed.

Lemma first_difference_decides_witness :
  ktcmp "AC*GGG" "AC-TTT" = n2kt "*" - n2kt "-" /\
  strcmp "AC*GGG" "AC-TTT" = uchar "*" - uchar "-" /\
  strcmp "AC*GGG" "AC-TTT" <> 0.
Proof.
  apply (first_difference_decides "AC" "*" "-" "GGG" "TTT").
  - reflexivity.
  - discriminate.
Defined.

Lemma accepted_cases (c : ascii) :
  accepted c = true ->
  In c ["A"; "C"; "G"; "N"; "T"; "a"; "c"; "g"; "n"; "t"]%char.
Proof.
  unfold accepted, one_of; simpl.
  rewrite !orb_true_iff, !Ascii.eqb_eq.
  intros H. repeat (destruct H as [H | H]; [subst; simpl; tauto|]).
  discriminate H.
Qed.

(** X5. On keys the reader accepts, [ktcmp] does not tell the case of a
    letter, nor C from N: when, after a common prefix, the two keys differ
    by two accepted characters, [ktcmp] returns zero exactly when these
    are the same letter in different case or both among C, c, N, n, and
    this whatever follows in the two keys. *)
Theorem ktcmp_confuses_case_and_N :
  forall (p : string) (c1 c2 : ascii) (r1 r2 : string),
    over accepted p = true -> accepted c1 = true -> accepted c2 = true ->
    c1 <> c2 ->
    (ktcmp (p ++ String c1 r1) (p ++ String c2 r2) = 0 <->
     same_nucleotide c1 c2 = true).
Proof.
  intros p c1 c2 r1 r2 Hp H1 H2 Hne.
  destruct (first_difference_any p c1 c2 r1 r2) as (-> & _); auto.
  { rewrite <- (c_str_no_NUL p). now rewrite key_no_NUL. }
  clear Hne.
  apply accepted_cases in H1, H2. simpl in H1, H2.
  repeat (destruct H1 as [<- | H1]);
    repeat (destruct H2 as [<- | H2]);
    try contradiction; vm_compute; split; congruence.
Qed.

Lemma ktcmp_confuses_case_and_N_witness :
  ktcmp "ACGTA" "ANTTC" = 0 /\ ktcmp "ACGTA" "AGTTC" <> 0.
Proof.
  split.
  - apply (ktcmp_confuses_case_and_N "A" "C" "N" "GTA" "TTC");
      try reflexivity. discriminate.
  - intros E.
    apply (ktcmp_confuses_case_and_N "A" "C" "G" "GTA" "TTC") in E;
      try reflexivity; discriminate.
Defined.

(** ** Reading rows back *)

Lemma read_line_row (l rest : string) :
  no_LF l = true -> read_line (l ++ nl ++ rest) = (l ++ nl, rest).
Proof.
  unfold no_LF. induction l as [|c l IH]; intros H; [reflexivity|].
  simpl in H. apply andb_true_iff in H as [Hc Hl]. apply negb_true_iff in Hc.
  specialize (IH Hl).
  change (read_line (String c (l ++ nl ++ rest)) = (String c (l ++ nl), rest)).
  remember (l ++ nl ++ rest) as t. simpl. now rewrite Hc, IH.
Qed.

Lemma read_line_last (l : string) :
  no_LF l = true -> read_line l = (l, EmptyString).
Proof.
  unfold no_LF. induction l as [|c l IH]; simpl; intros H; [reflexivity|].
  apply andb_true_iff in H as [Hc Hl]. apply negb_true_iff in Hc.
  now rewrite Hc, (IH Hl).
Qed.

Lemma chomp_no_LF (l : string) : no_LF l = true -> chomp l = l.
Proof.
  unfold no_LF. induction l as [|c l IH]; intros H; [reflexivity|].
  simpl in H. apply andb_true_iff in H as [Hc Hl]. apply negb_true_iff in Hc.
  now rewrite chomp_cons, (IH Hl).
Qed.

Lemma chomp_line (l : string) : no_LF l = true -> chomp (l ++ nl) = l.
Proof.
  unfold no_LF. induction l as [|c l IH]; intros H; [reflexivity|].
  simpl in H. apply andb_true_iff in H as [Hc Hl]. apply negb_true_iff in Hc.
  simpl append. now rewrite chomp_cons, (IH Hl).
Qed.

Lemma take_append (n : nat) :
  forall l x, (n <= String.length l)%nat -> take n (l ++ x) = take n l.
Proof.
  induction n as [|n IH]; intros [|c l] x H; simpl in *; try lia.
  - now destruct x.
  - reflexivity.
  - rewrite IH; [reflexivity | lia].
Qed.

(** The reader on a stream that starts with the text of a row, ended by a
    line feed or by the end of the stream. *)
Lemma reader_on_row (kmer : string) (ksize : Z) (line l term rest : string) :
  0 < ksize -> row_text_ok ksize l ->
  (term = nl \/ (term = EmptyString /\ rest = EmptyString)) ->
  next_kmer_and_line kmer ksize line (l ++ term ++ rest) =
  Ret {| r_ok := true; r_kmer := take (Z.to_nat ksize) l; r_line := l;
         r_stream := rest; r_err := EmptyString |}.
Proof.
  intros Hk (Hlen & Hacc & HN & HLF) Hterm.
  assert (Hne : l <> EmptyString) by (intros ->; simpl in Hlen; lia).
  assert (Hg : getline line (l ++ term ++ rest)
               = (Z.of_nat (String.length (l ++ term)), l ++ term, rest)).
  { unfold getline. destruct l as [|c l]; [congruence|].
    change (String c l ++ term ++ rest) with (String c (l ++ term ++ rest)).
    cbv iota. change (String c (l ++ term ++ rest)) with (String c l ++ term ++ rest).
    destruct Hterm as [-> | [-> ->]].
    - now rewrite read_line_row.
    - simpl append at 2. rewrite !append_nil_r. now rewrite read_line_last. }
  unfold next_kmer_and_line. rewrite Hg.
  replace (Z.of_nat (String.length (l ++ term)) <? ksize) with false
    by (symmetry; apply Z.ltb_ge; rewrite length_append; lia).
  destruct (check_kmer_spec (Z.to_nat ksize) (l ++ term)) as (k & Ec & Hkey).
  { rewrite length_append. lia. }
  { rewrite take_append by exact Hlen.
    apply (over_weaken accepted); [|exact Hacc].
    intros c Hc. apply (accepted_plain c Hc). }
  rewrite take_append in Ec, Hkey by exact Hlen.
  rewrite Hacc in Ec. rewrite Ec. simpl.
  rewrite (Hkey Hacc). do 2 f_equal.
  destruct Hterm as [-> | [-> _]].
  - rewrite c_str_id; [now apply chomp_line|].
    unfold no_NUL in *. rewrite over_append, HN. reflexivity.
  - rewrite append_nil_r, c_str_id by exact HN. now apply chomp_no_LF.
Qed.

Lemma stream_rows_empty (ksize : Z) :
  0 < ksize -> stream_rows ksize EmptyString = [].
Proof.
  intros Hk. unfold stream_rows. simpl.
  destruct (reader_unfold EmptyString ksize EmptyString EmptyString Hk)
    as [(_ & E0) | (buf & rest & Hs & Hne & _)].
  - now rewrite E0.
  - destruct buf; [congruence | discriminate Hs].
Qed.

(** The rows of a stream that starts with well-formed lines. *)
Lemma stream_rows_lines (ksize : Z) (ls : list string) (rest : string) :
  0 < ksize -> Forall (row_text_ok ksize) ls ->
  stream_rows ksize (lines ls ++ rest) =
  (map (row_of_text ksize) ls ++ stream_rows ksize rest)%list.
Proof.
  intros Hk. induction 1 as [|l ls Hl _ IH]; [reflexivity|].
  change (lines (l :: ls)) with (l ++ nl ++ lines ls).
  rewrite !append_assoc.
  rewrite (stream_rows_step EmptyString ksize EmptyString _ _ Hk
             (reader_on_row EmptyString ksize EmptyString l nl
                (lines ls ++ rest) Hk Hl (or_introl eq_refl))).
  simpl. now rewrite IH.
Qed.

(** X6. Reading back the rows of a text: when every line of a file is a
    well-formed row (at least as long as the key, starting with accepted
    characters, without NUL), successive reads deliver exactly its lines,
    in their order, each with its first characters as key and the line
    without its line feed. *)
Theorem rows_of_well_formed_file :
  forall (ksize : Z) (ls : list string),
    0 < ksize -> Forall (row_text_ok ksize) ls ->
    stream_rows ksize (lines ls) = map (row_of_text ksize) ls.
Proof.
  intros ksize ls Hk Hls.
  rewrite <- (append_nil_r (lines ls)).
  rewrite (stream_rows_lines ksize ls EmptyString Hk Hls).
  rewrite (stream_rows_empty ksize Hk). apply app_nil_r.
Qed.

Lemma rows_of_well_formed_file_witness :
  stream_rows 3 (lines ["AAN 1 2"; "act"; "TTTT 7"]) =
  [("AAN", "AAN 1 2"); ("act", "act"); ("TTT", "TTTT 7")].
Proof.
  apply (rows_of_well_formed_file 3 ["AAN 1 2"; "act"; "TTTT 7"]).
  - lia.
  - repeat constructor; simpl; lia.
Defined.

(** X7. The last line of a file needs no line feed: a well-formed row at
    the end of the stream is delivered like the others. *)
Theorem last_row_needs_no_line_feed :
  forall (ksize : Z) (ls : list string) (l : string),
    0 < ksize -> Forall (row_text_ok ksize) ls -> row_text_ok ksize l ->
    stream_rows ksize (lines ls ++ l) = map (row_of_text ksize) (ls ++ [l]).
Proof.
  intros ksize ls l Hk Hls Hl.
  rewrite (stream_rows_lines ksize ls l Hk Hls), map_app. f_equal.
  pose proof (reader_on_row EmptyString ksize EmptyString l EmptyString
                EmptyString Hk Hl (or_intror (conj eq_refl eq_refl))) as E.
  simpl append in E. rewrite append_nil_r in E.
  rewrite (stream_rows_step _ _ _ _ _ Hk E). simpl.
  now rewrite (stream_rows_empty ksize Hk).
Qed.

Lemma last_row_needs_no_line_feed_witness :
  stream_rows 3 (lines ["AAA 1"] ++ "CCC 2") = [("AAA", "AAA 1"); ("CCC", "CCC 2")].
Proof.
  apply (last_row_needs_no_line_feed 3 ["AAA 1"] "CCC 2").
  - lia.
  - repeat constructor; simpl; lia.
  - repeat constructor; simpl; lia.
Defined.

(** ** Lines the reader refuses *)

Lemma getline_line (line l rest : string) :
  no_LF l = true ->
  getline line (l ++ nl ++ rest)
  = (Z.of_nat (String.length (l ++ nl)), l ++ nl, rest).
Proof.
  intros HLF. unfold getline.
  pose proof (read_line_row l rest HLF) as E.
  destruct l as [|c l]; [reflexivity|].
  change (String c l ++ nl ++ rest) with (String c (l ++ nl ++ rest)) in E |- *.
  cbv iota. now rewrite E.
Qed.

Lemma stream_rows_malformed (ksize : Z) (bad rest : string) :
  0 < ksize -> no_LF bad = true ->
  over seven_bit (take (Z.to_nat ksize) (bad ++ nl)) = true ->
  (Z.of_nat (String.length (bad ++ nl)) < ksize \/
   over accepted (take (Z.to_nat ksize) (bad ++ nl)) = false) ->
  stream_rows ksize (bad ++ nl ++ rest) = [].
Proof.
  intros Hk HLF H7 Hbad.
  pose proof (getline_line EmptyString bad rest HLF) as Hg.
  destruct (Z.of_nat (String.length (bad ++ nl)) <? ksize) eqn:Elt.
  - assert (E : next_kmer_and_line EmptyString ksize EmptyString (bad ++ nl ++ rest)
                = Ret {| r_ok := false; r_kmer := EmptyString;
                         r_line := c_str (bad ++ nl); r_stream := rest;
                         r_err := EmptyString |}).
    { unfold next_kmer_and_line. now rewrite Hg, Elt. }
    now rewrite (stream_rows_step _ _ _ _ _ Hk E).
  - apply Z.ltb_ge in Elt.
    destruct Hbad as [Hshort | Hrej]; [lia|].
    destruct (reader_accepts_table_spec EmptyString ksize EmptyString
                (bad ++ nl ++ rest) _ _ _ Hk Hg Elt H7)
      as (r & E & _ & Hiff & _).
    rewrite (stream_rows_step _ _ _ _ _ Hk E).
    destruct (r_ok r); [|reflexivity].
    rewrite (proj1 Hiff eq_refl) in Hrej. discriminate Hrej.
Qed.

(** X8. A malformed line hides every row after it.  When a file has
    well-formed rows, then a line that is too short (its line feed
    counted) or has a character the reader does not accept among the first
    of the key, then anything, the run writes what it writes when the file
    ends before that line; this on the left side as on the right side
    (files of bytes below 128). *)
Theorem malformed_line_hides_later_rows :
  forall (ksize : Z) (use_ktcmp : bool) (ls : list string)
         (bad rest other : string),
    0 < ksize -> Forall (row_text_ok ksize) ls -> no_LF bad = true ->
    (Z.of_nat (String.length (bad ++ nl)) < ksize \/
     over accepted (take (Z.to_nat ksize) (bad ++ nl)) = false) ->
    over seven_bit (lines ls ++ bad ++ nl ++ rest) = true ->
    over seven_bit other = true ->
    (exists st st',
        diff ksize use_ktcmp (lines ls ++ bad ++ nl ++ rest) other = Ret st /\
        diff ksize use_ktcmp (lines ls) other = Ret st' /\
        outfile st = outfile st') /\
    (exists st st',
        diff ksize use_ktcmp other (lines ls ++ bad ++ nl ++ rest) = Ret st /\
        diff ksize use_ktcmp other (lines ls) = Ret st' /\
        outfile st = outfile st').
Proof.
  intros ksize z ls bad rest other Hk Hls HLF Hbad H7 H7o.
  pose proof H7 as H7'. rewrite over_append in H7'.
  apply andb_true_iff in H7' as [H7l H7b].
  assert (H7k : over seven_bit (take (Z.to_nat ksize) (bad ++ nl)) = true).
  { apply over_take. rewrite <- append_assoc, over_append in H7b.
    now apply andb_true_iff in H7b as [H7b _]. }
  assert (E : stream_rows ksize (lines ls ++ bad ++ nl ++ rest)
              = stream_rows ksize (lines ls)).
  { rewrite (stream_rows_lines ksize ls _ Hk Hls).
    rewrite (stream_rows_malformed ksize bad rest Hk HLF H7k Hbad).
    pose proof (stream_rows_lines ksize ls EmptyString Hk Hls) as El.
    rewrite append_nil_r, (stream_rows_empty ksize Hk) in El.
    now rewrite El. }
  split.
  - destruct (diff_output ksize z _ other Hk H7 H7o) as (st & Ed & Ho).
    destruct (diff_output ksize z _ other Hk H7l H7o) as (st' & Ed' & Ho').
    exists st, st'. repeat split; auto. rewrite Ho, Ho', E. reflexivity.
  - destruct (diff_output ksize z other _ Hk H7o H7) as (st & Ed & Ho).
    destruct (diff_output ksize z other _ Hk H7o H7l) as (st' & Ed' & Ho').
    exists st, st'. repeat split; auto. rewrite Ho, Ho'.
    unfold width. rewrite E. reflexivity.
Qed.

Lemma malformed_line_hides_later_rows_witness :
  exists st st',
    diff 3 false (lines ["AAA 1"] ++ "AxA 2" ++ nl ++ lines ["CCC 3"])
         (lines ["AAA 9"]) = Ret st /\
    diff 3 false (lines ["AAA 1"]) (lines ["AAA 9"]) = Ret st' /\
    outfile st = outfile st'.
Proof.
  apply (malformed_line_hides_later_rows 3 false ["AAA 1"] "AxA 2"
           (lines ["CCC 3"]) (lines ["AAA 9"])).
  - lia.
  - repeat constructor; simpl; lia.
  - reflexivity.
  - right. reflexivity.
  - reflexivity.
  - reflexivity.
Defined.

Lemma isnuc_above_127 (c : ascii) :
  seven_bit c = false -> isnuc (char_to_int c) = None.
Proof.
  destruct c as [[] [] [] [] [] [] [] []]; vm_compute; intros H;
    (reflexivity || discriminate H).
Qed.

Lemma check_kmer_above_127 (p : string) (c : ascii) (s : string) :
  forall n : nat,
    over accepted p = true -> (String.length p < n)%nat ->
    seven_bit c = false ->
    check_kmer n (p ++ String c s) = Undef.
Proof.
  induction p as [|a p IH]; intros [|n] Hp Hlen Hc; simpl in Hlen; try lia.
  - simpl. now rewrite (isnuc_above_127 c Hc).
  - simpl in Hp. apply andb_true_iff in Hp as [Ha Hp].
    destruct (accepted_plain a Ha) as (_ & _ & _ & H7).
    simpl. rewrite (isnuc_accepted a H7), Ha. simpl.
    rewrite IH; auto. lia.
Qed.

(** X9. A byte above 127 among the first characters of a line that is long
    enough, the characters before it being accepted, makes the reader
    index the table [isnuc] with a negative number: the read is outside
    the table, whatever the rest of the line. *)
Theorem byte_above_127_reads_outside_isnuc :
  forall (kmer : string) (ksize : Z) (line stream : string)
         (n : Z) (buf rest p : string) (c : ascii) (s : string),
    getline line stream = (n, buf, rest) -> ksize <= n ->
    buf = p ++ String c s ->
    over accepted p = true -> Z.of_nat (String.length p) < ksize ->
    seven_bit c = false ->
    char_to_int c < 0 /\
    next_kmer_and_line kmer ksize line stream = Undef.
Proof.
  intros kmer ksize line stream n buf rest p c s Hg Hn -> Hp Hlen Hc.
  split.
  - clear - Hc. destruct c as [[] [] [] [] [] [] [] []];
      vm_compute in Hc |- *; (reflexivity || discriminate Hc).
  - unfold next_kmer_and_line. rewrite Hg.
    replace (n <? ksize) with false by (symmetry; apply Z.ltb_ge; lia).
    rewrite check_kmer_above_127; auto. lia.
Qed.

Lemma byte_above_127_reads_outside_isnuc_witness :
  next_kmer_and_line EmptyString 3 EmptyString
    ("AC" ++ String "233"%char ("  1 2" ++ nl)) = Undef.
Proof.
  apply (byte_above_127_reads_outside_isnuc EmptyString 3 EmptyString
           ("AC" ++ String "233"%char ("  1 2" ++ nl))
           9 ("AC" ++ String "233"%char ("  1 2" ++ nl)) EmptyString
           "AC" "233"%char ("  1 2" ++ nl)).
  - reflexivity.
  - lia.
  - reflexivity.
  - reflexivity.
  - simpl. lia.
  - reflexivity.
Defined.

(** ** Runs on particular pairs of files *)

Lemma merge_rows_nil_r (z : bool) (L : list row) : merge_rows z L [] = ([], L).
Proof. destruct L; reflexivity. Qed.

Lemma lines_padded_0 (L : list row) :
  lines (map (padded_row 0) L)
  = lines (map (fun r => fst r ++ " " ++ first_column (snd r)) L).
Proof.
  f_equal. apply map_ext. intros r. unfold padded_row. simpl.
  now rewrite append_nil_r.
Qed.

(** X10. When the right file has no row, because it is empty or because
    its first line is refused, every row of the left file is written as
    its key, one space and its columns, and no column is appended. *)
Theorem right_without_rows_keeps_every_left_row :
  forall (ksize : Z) (use_ktcmp : bool) (file_1 file_2 : string),
    0 < ksize ->
    over seven_bit file_1 = true -> over seven_bit file_2 = true ->
    stream_rows ksize file_2 = [] ->
    exists st,
      diff ksize use_ktcmp file_1 file_2 = Ret st /\
      outfile st =
      lines (map (fun r => fst r ++ " " ++ first_column (snd r))
                 (stream_rows ksize file_1)).
Proof.
  intros ksize z file_1 file_2 Hk H1 H2 HR.
  destruct (diff_output ksize z file_1 file_2 Hk H1 H2) as (st & E & Ho).
  exists st. split; [exact E|].
  rewrite Ho. unfold width. rewrite HR, merge_rows_nil_r. simpl.
  apply lines_padded_0.
Qed.

Lemma right_without_rows_keeps_every_left_row_witness :
  exists st,
    diff 3 false left_P6 ("AA" ++ nl ++ "CCC 1" ++ nl) = Ret st /\
    outfile st = lines ["AAA 1 2"; "AAC 0 1"; "TTT 3 3"].
Proof.
  apply (right_without_rows_keeps_every_left_row 3 false left_P6
           ("AA" ++ nl ++ "CCC 1" ++ nl));
    (lia || reflexivity).
Defined.

(** X11. When the left file has no row, nothing is written to the output,
    whatever the right file holds. *)
Theorem left_without_rows_writes_nothing :
  forall (ksize : Z) (use_ktcmp : bool) (file_1 file_2 : string),
    0 < ksize ->
    over seven_bit file_1 = true -> over seven_bit file_2 = true ->
    stream_rows ksize file_1 = [] ->
    exists st,
      diff ksize use_ktcmp file_1 file_2 = Ret st /\
      outfile st = EmptyString.
Proof.
  intros ksize z file_1 file_2 Hk H1 H2 HL.
  destruct (diff_output ksize z file_1 file_2 Hk H1 H2) as (st & E & Ho).
  exists st. split; [exact E|].
  rewrite Ho, HL, merge_rows_nil_l. reflexivity.
Qed.

Lemma left_without_rows_writes_nothing_witness :
  exists st,
    diff 3 false EmptyString right_P6 = Ret st /\ outfile st = EmptyString.
Proof.
  apply (left_without_rows_writes_nothing 3 false EmptyString right_P6);
    (lia || reflexivity).
Defined.

Lemma compare_refl_any (z : bool) (k : string) : compare z k k = 0.
Proof. destruct z; [apply ktcmp_refl_any | apply strcmp_refl]. Qed.

Lemma merge_rows_self (z : bool) (L : list row) :
  merge_rows z L L = (repeat EmptyString (List.length L), []).
Proof.
  induction L as [|r L IH]; [reflexivity|].
  rewrite merge_rows_cons, compare_refl_any, IH. reflexivity.
Qed.

(** X12. The difference of a file with itself keeps no row: every
    iteration finds equal keys, and the output is one empty line for each
    row of the file, with either comparator and whatever the order of the
    keys. *)
Theorem self_difference_is_empty_lines :
  forall (ksize : Z) (use_ktcmp : bool) (file : string),
    0 < ksize -> over seven_bit file = true ->
    exists st,
      diff ksize use_ktcmp file file = Ret st /\
      outfile st =
      lines (repeat EmptyString (List.length (stream_rows ksize file))) /\
      output_rows (outfile st) = [].
Proof.
  intros ksize z file Hk H7.
  destruct (diff_output ksize z file file Hk H7 H7) as (st & E & Ho).
  exists st. split; [exact E|].
  rewrite merge_rows_self in Ho. simpl in Ho. rewrite append_nil_r in Ho.
  split; [exact Ho|].
  unfold output_rows. rewrite Ho, text_lines_lines.
  - clear. induction (List.length (stream_rows ksize file)) as [|n IH];
      [reflexivity | exact IH].
  - apply Forall_forall. intros l Hl. apply repeat_spec in Hl. now subst.
Qed.

Lemma self_difference_is_empty_lines_witness :
  exists st,
    diff 3 true left_P6 left_P6 = Ret st /\
    outfile st = lines [""; ""; ""] /\ output_rows (outfile st) = [].
Proof.
  apply (self_difference_is_empty_lines 3 true left_P6); [lia | reflexivity].
Defined.

Lemma merge_rows_left_below (z : bool) (r2 : row) (R : list row) (L : list row) :
  Forall (fun k => compare z k (fst r2) < 0) (keys L) ->
  merge_rows z L (r2 :: R) = (map snd L, []).
Proof.
  induction L as [|r1 L IH]; intros H; [reflexivity|].
  simpl keys in H. inversion H as [|? ? Hlt HL]; subst.
  rewrite merge_rows_cons.
  replace (compare z (fst r1) (fst r2) =? 0) with false
    by (symmetry; apply Z.eqb_neq; lia).
  replace (compare z (fst r1) (fst r2) <? 0) with true
    by (symmetry; apply Z.ltb_lt; lia).
  now rewrite (IH HL).
Qed.

(** X13. When every left key compares below the key of the first right
    row, the merging loop writes every left row as it was read, without
    column appended, and the draining loop has nothing left: the output
    is the lines of the left rows. *)
Theorem left_below_right_is_copied :
  forall (ksize : Z) (use_ktcmp : bool) (file_1 file_2 : string)
         (r2 : row) (R : list row),
    0 < ksize ->
    over seven_bit file_1 = true -> over seven_bit file_2 = true ->
    stream_rows ksize file_2 = r2 :: R ->
    Forall (fun k => compare use_ktcmp k (fst r2) < 0)
           (keys (stream_rows ksize file_1)) ->
    exists st,
      diff ksize use_ktcmp file_1 file_2 = Ret st /\
      outfile st = lines (map snd (stream_rows ksize file_1)).
Proof.
  intros ksize z file_1 file_2 r2 R Hk H1 H2 HR Hlt.
  destruct (diff_output ksize z file_1 file_2 Hk H1 H2) as (st & E & Ho).
  exists st. split; [exact E|].
  rewrite Ho, HR, (merge_rows_left_below z r2 R _ Hlt). simpl.
  apply append_nil_r.
Qed.

Lemma left_below_right_is_copied_witness :
  exists st,
    diff 3 false (lines ["AAA 1 2"; "AAC  0 1"]) (lines ["CCC 1 1 1"]) = Ret st /\
    outfile st = lines ["AAA 1 2"; "AAC  0 1"].
Proof.
  apply (left_below_right_is_copied 3 false (lines ["AAA 1 2"; "AAC  0 1"])
           (lines ["CCC 1 1 1"]) ("CCC", "CCC 1 1 1") []);
    try (lia || reflexivity).
  change (Forall (fun k => compare false k "CCC" < 0) ["AAA"; "AAC"]).
  repeat constructor.
Defined.

Lemma merge_rows_left_above (z : bool) (r1 : row) (L : list row) (R : list row) :
  Forall (fun k => compare z (fst r1) k > 0) (keys R) ->
  merge_rows z (r1 :: L) R = (repeat EmptyString (List.length R), r1 :: L).
Proof.
  induction R as [|r2 R IH]; intros H; [reflexivity|].
  simpl keys in H. inversion H as [|? ? Hgt HR]; subst.
  rewrite merge_rows_cons.
  replace (compare z (fst r1) (fst r2) =? 0) with false
    by (symmetry; apply Z.eqb_neq; lia).
  replace (compare z (fst r1) (fst r2) <? 0) with false
    by (symmetry; apply Z.ltb_ge; lia).
  now rewrite (IH HR).
Qed.

(** X14. When the key of the first left row compares above every right
    key, the merging loop passes over the right rows, writing one empty
    line for each, and every left row is then written by the draining
    loop, with as many columns " 0" as the first right row has sample
    columns. *)
Theorem left_above_right_is_padded :
  forall (ksize : Z) (use_ktcmp : bool) (file_1 file_2 : string)
         (r1 : row) (L : list row),
    0 < ksize ->
    over seven_bit file_1 = true -> over seven_bit file_2 = true ->
    stream_rows ksize file_1 = r1 :: L ->
    Forall (fun k => compare use_ktcmp (fst r1) k > 0)
           (keys (stream_rows ksize file_2)) ->
    exists st,
      diff ksize use_ktcmp file_1 file_2 = Ret st /\
      outfile st =
      lines (repeat EmptyString (List.length (stream_rows ksize file_2)))
      ++ lines (map (fun r => fst r ++ " " ++ first_column (snd r)
                              ++ zeros (Z.to_nat (width ksize file_2)))
                    (r1 :: L)).
Proof.
  intros ksize z file_1 file_2 r1 L Hk H1 H2 HL Hgt.
  destruct (diff_output ksize z file_1 file_2 Hk H1 H2) as (st & E & Ho).
  exists st. split; [exact E|].
  rewrite Ho, HL, (merge_rows_left_above z r1 L _ Hgt). reflexivity.
Qed.

Lemma left_above_right_is_padded_witness :
  exists st,
    diff 3 false (lines ["GGG 5"; "TTT 6"]) (lines ["AAA 1 2"; "CCC 3 4"]) = Ret st /\
    outfile st = lines [""; ""] ++ lines ["GGG 5 0 0"; "TTT 6 0 0"].
Proof.
  apply (left_above_right_is_padded 3 false (lines ["GGG 5"; "TTT 6"])
           (lines ["AAA 1 2"; "CCC 3 4"]) ("GGG", "GGG 5") [("TTT", "TTT 6")]);
    try (lia || reflexivity).
  change (Forall (fun k => compare false "GGG" k > 0) ["AAA"; "CCC"]).
  repeat constructor.
Defined.

(** ** The output against the left file, without any order *)

Lemma subsequence_refl (A : Type) (l : list A) : subsequence l l.
Proof. induction l; constructor; assumption. Qed.

Lemma merge_rows_subsequence (z : bool) (ksize : Z) (L : list row) :
  0 < ksize -> Forall (row_ok ksize) L ->
  forall R,
    subsequence
      (map (take (Z.to_nat ksize))
           (filter (fun l => negb (is_empty l)) (fst (merge_rows z L R)))
       ++ keys (snd (merge_rows z L R)))%list
      (keys L).
Proof.
  intros Hk. induction 1 as [|r1 L Hr1 _ IHL]; intros R.
  - rewrite merge_rows_nil_l. constructor.
  - induction R as [|r2 R IHR]; [apply subsequence_refl|].
    rewrite merge_rows_cons.
    destruct (compare z (fst r1) (fst r2) =? 0);
      [|destruct (compare z (fst r1) (fst r2) <? 0)].
    + specialize (IHL R). destruct (merge_rows z L R) as [out rest].
      simpl in *. now constructor.
    + specialize (IHL (r2 :: R)).
      destruct (merge_rows z L (r2 :: R)) as [out rest]. simpl in *.
      assert (Hne : is_empty (snd r1) = false).
      { destruct Hr1 as (Ln & _ & Ht & _). destruct (snd r1); [|reflexivity].
        rewrite <- Ht in Ln. destruct (Z.to_nat ksize) eqn:En; [lia|].
        discriminate Ln. }
      rewrite Hne. simpl.
      replace (take (Z.to_nat ksize) (snd r1)) with (fst r1)
        by (symmetry; apply Hr1).
      now constructor.
    + destruct (merge_rows z (r1 :: L) R) as [out rest]. exact IHR.
Qed.

(** The keys of the output, from the rows of the two files. *)
Lemma diff_emitted_keys (ksize : Z) (z : bool) (file_1 file_2 : string) :
  0 < ksize ->
  over seven_bit file_1 = true -> over seven_bit file_2 = true ->
  exists st,
    diff ksize z file_1 file_2 = Ret st /\
    emitted_keys ksize (outfile st) =
    (map (take (Z.to_nat ksize))
         (filter (fun l => negb (is_empty l))
                 (fst (merge_rows z (stream_rows ksize file_1)
                                  (stream_rows ksize file_2))))
     ++ keys (snd (merge_rows z (stream_rows ksize file_1)
                              (stream_rows ksize file_2))))%list.
Proof.
  intros Hk H1 H2.
  destruct (diff_output ksize z file_1 file_2 Hk H1 H2) as (st & E & Ho).
  exists st. split; [exact E|].
  pose proof (rows_ok ksize (S (String.length file_1)) Hk file_1 H1) as HokL.
  fold (stream_rows ksize file_1) in HokL.
  set (L := stream_rows ksize file_1) in *.
  set (R := stream_rows ksize file_2) in *.
  destruct (merge_rows_suffix z L R) as (consumed & Hc).
  pose proof (merged_no_LF z ksize L HokL R) as HLF.
  destruct (merge_rows z L R) as [merged drained]. simpl in *.
  assert (Hokd : Forall (row_ok ksize) drained).
  { rewrite Hc in HokL. exact (proj2 (proj1 (Forall_app _ _ _) HokL)). }
  unfold emitted_keys, output_rows.
  rewrite Ho, <- lines_app, text_lines_lines.
  - now rewrite filter_app, map_app, (drained_keys ksize _ drained Hk Hokd).
  - apply Forall_app. split; [exact HLF|].
    rewrite Forall_map. rewrite Forall_forall in Hokd |- *.
    intros r Hr. apply (padded_row_facts ksize _ r Hk (Hokd r Hr)).
Qed.

(** X15. Whatever the two files hold and in whatever order their keys
    come, the keys of the rows of the output are keys of left rows, in
    the order of the left file, each left row giving one key at most: no
    right row is ever written, and no left row is written twice or out of
    turn. *)
Theorem emitted_keys_come_from_left :
  forall (ksize : Z) (use_ktcmp : bool) (file_1 file_2 : string),
    0 < ksize ->
    over seven_bit file_1 = true -> over seven_bit file_2 = true ->
    exists st,
      diff ksize use_ktcmp file_1 file_2 = Ret st /\
      subsequence (emitted_keys ksize (outfile st))
                  (keys (stream_rows ksize file_1)).
Proof.
  intros ksize z file_1 file_2 Hk H1 H2.
  destruct (diff_emitted_keys ksize z file_1 file_2 Hk H1 H2) as (st & E & Hkeys).
  exists st. split; [exact E|]. rewrite Hkeys.
  apply merge_rows_subsequence; [exact Hk|].
  apply (rows_ok ksize _ Hk file_1 H1).
Qed.

Lemma emitted_keys_come_from_left_witness :
  exists st,
    diff 3 false (lines ["TTT 1"; "AAA 2"; "CCC 3"]) (lines ["GGG 1"; "AAA 1"])
    = Ret st /\
    subsequence (emitted_keys 3 (outfile st)) ["TTT"; "AAA"; "CCC"].
Proof.
  apply (emitted_keys_come_from_left 3 false
           (lines ["TTT 1"; "AAA 2"; "CCC 3"]) (lines ["GGG 1"; "AAA 1"]));
    (lia || reflexivity).
Defined.

(** ** Columns *)

Lemma skip_blank_stops (rest : string) :
  is_blank (deref rest) = false -> skip_while is_blank rest = rest.
Proof.
  destruct rest as [|c rest]; simpl; intros H; [reflexivity|].
  now rewrite H, andb_false_r.
Qed.

Lemma skip_blank_run (sep rest : string) :
  over is_blank sep = true -> is_blank (deref rest) = false ->
  skip_while is_blank (sep ++ rest) = rest.
Proof.
  induction sep as [|c sep IH]; simpl; intros Hs Hr;
    [now apply skip_blank_stops|].
  apply andb_true_iff in Hs as [Hc Hs]. rewrite Hc.
  replace (Ascii.eqb c NUL) with false; [simpl; auto|].
  symmetry. apply Ascii.eqb_neq. intros ->. discriminate Hc.
Qed.

Lemma skip_token (tok rest : string) :
  over (fun c => negb (Ascii.eqb c NUL) && negb (is_blank c)) tok = true ->
  (rest = EmptyString \/ is_blank (deref rest) = true) ->
  skip_while (fun c => negb (is_blank c)) (tok ++ rest) = rest.
Proof.
  induction tok as [|c tok IH]; simpl; intros Ht Hr.
  - destruct Hr as [-> | Hr]; [reflexivity|].
    destruct rest as [|d rest]; [reflexivity|]. simpl in Hr |- *.
    now rewrite Hr, andb_false_r.
  - apply andb_true_iff in Ht as [Hc Ht]. rewrite Hc. auto.
Qed.

(** X16. [first_column] returns what follows the first run of spaces and
    tabs: on a first token without space, tab nor NUL, then spaces and
    tabs, then a text that starts with neither, it returns that text, and
    the empty string when the line is the token alone. *)
Theorem first_column_skips_token_and_blanks :
  forall tok sep rest : string,
    over (fun c => negb (Ascii.eqb c NUL) && negb (is_blank c)) tok = true ->
    over is_blank sep = true ->
    is_blank (deref rest) = false ->
    (sep <> EmptyString \/ rest = EmptyString) ->
    first_column (tok ++ sep ++ rest) = rest.
Proof.
  intros tok sep rest Ht Hs Hr Hor. unfold first_column.
  rewrite skip_token; [now apply skip_blank_run | exact Ht |].
  destruct sep as [|c sep].
  - destruct Hor as [H | ->]; [congruence | now left].
  - right. simpl in Hs |- *. now apply andb_true_iff in Hs as [Hc _].
Qed.

Lemma first_column_skips_token_and_blanks_witness :
  first_column ("ACGT" ++ String TAB "  " ++ "12 0 7") = "12 0 7" /\
  first_column ("ACGT" ++ EmptyString ++ EmptyString) = EmptyString.
Proof.
  split.
  - apply (first_column_skips_token_and_blanks "ACGT" (String TAB "  ") "12 0 7");
      try reflexivity. left. discriminate.
  - apply (first_column_skips_token_and_blanks "ACGT" EmptyString EmptyString);
      try reflexivity. now right.
Defined.

Lemma emit_token (cur : string) :
  match cur with EmptyString => [] | _ => [cur] end
  = if is_empty cur then [] else [cur].
Proof. now destruct cur. Qed.

Lemma strtok_all_delim (d : ascii) (a b : string) :
  is_delim d = true ->
  forall cur,
    strtok_all cur (a ++ String d b)
    = (strtok_all cur a ++ strtok_all EmptyString b)%list.
Proof.
  intros Hd. induction a as [|c a IH]; intros cur; simpl.
  - rewrite Hd. now destruct cur.
  - destruct (is_delim c); [|apply IH].
    destruct cur; simpl; now rewrite IH.
Qed.

Lemma strtok_all_token (t : string) :
  over (fun c => negb (is_delim c)) t = true ->
  forall cur,
    strtok_all cur t = if is_empty (cur ++ t) then [] else [cur ++ t].
Proof.
  induction t as [|c t IH]; simpl; intros Ht cur.
  - rewrite append_nil_r. apply emit_token.
  - apply andb_true_iff in Ht as [Hc Ht]. apply negb_true_iff in Hc.
    rewrite Hc, (IH Ht), append_assoc. reflexivity.
Qed.

Lemma strtok_all_skip (s b : string) :
  over is_delim s = true ->
  strtok_all EmptyString (s ++ b) = strtok_all EmptyString b.
Proof.
  induction s as [|c s IH]; simpl; intros Hs; [reflexivity|].
  apply andb_true_iff in Hs as [Hc Hs]. rewrite Hc. auto.
Qed.

Lemma token_no_delim (t : string) :
  is_token t -> over (fun c => negb (is_delim c)) t = true.
Proof.
  intros [_ H]. apply (over_weaken _ _ _ (fun c Hc => proj2 (proj1 (andb_true_iff _ _) Hc)) H).
Qed.

Lemma strtok_all_columns (trail : string) (cols : list (string * string)) :
  over is_delim trail = true ->
  Forall (fun c => is_separator (fst c) /\ is_token (snd c)) cols ->
  forall tok, is_token tok ->
    strtok_all EmptyString (tok ++ columns_text cols ++ trail)
    = tok :: map snd cols.
Proof.
  intros Htrail. induction 1 as [|[sep tok2] cols [Hsep Htok2] _ IH];
    intros tok Htok.
  - simpl. destruct trail as [|d trail].
    + rewrite append_nil_r, (strtok_all_token _ (token_no_delim _ Htok)).
      simpl. destruct tok; [destruct Htok as [H _]; congruence | reflexivity].
    + simpl in Htrail. apply andb_true_iff in Htrail as [Hd Htrail].
      rewrite (strtok_all_delim d _ _ Hd),
        (strtok_all_token _ (token_no_delim _ Htok)).
      rewrite <- (append_nil_r trail), (strtok_all_skip _ _ Htrail). simpl.
      destruct tok; [destruct Htok as [H _]; congruence | reflexivity].
  - simpl in Hsep, Htok2 |- *. destruct Hsep as [Hne Hsep].
    destruct sep as [|d sep]; [congruence|].
    simpl in Hsep. apply andb_true_iff in Hsep as [Hd Hsep].
    rewrite !append_assoc. simpl.
    rewrite (strtok_all_delim d _ _ Hd),
      (strtok_all_token _ (token_no_delim _ Htok)).
    rewrite (strtok_all_skip _ _ Hsep), (IH tok2 Htok2). simpl.
    destruct tok; [destruct Htok as [H _]; congruence | reflexivity].
Qed.

Lemma count_tokens_rest (toks : list string) :
  forall n, count_tokens toks false n = n + Z.of_nat (List.length toks).
Proof.
  induction toks as [|t toks IH]; intros n; simpl count_tokens;
    [simpl; lia|].
  rewrite IH. simpl List.length. lia.
Qed.

Lemma delim_no_NUL (s : string) : over is_delim s = true -> no_NUL s = true.
Proof.
  apply over_weaken. intros c Hc.
  destruct (Ascii.eqb_spec c NUL) as [-> | _]; [discriminate Hc | reflexivity].
Qed.

Lemma token_no_NUL (t : string) : is_token t -> no_NUL t = true.
Proof.
  intros [_ H]. apply (over_weaken _ _ _ (fun c Hc => proj1 (proj1 (andb_true_iff _ _) Hc)) H).
Qed.

Lemma columns_no_NUL (cols : list (string * string)) :
  Forall (fun c => is_separator (fst c) /\ is_token (snd c)) cols ->
  no_NUL (columns_text cols) = true.
Proof.
  induction 1 as [|[sep tok] cols [[_ Hsep] Htok] _ IH]; [reflexivity|].
  simpl in *. unfold no_NUL in *. rewrite !over_append.
  fold (no_NUL sep). fold (no_NUL tok).
  now rewrite (delim_no_NUL _ Hsep), (token_no_NUL _ Htok), IH.
Qed.

(** X17. [samples_number] counts the columns after the first token.  On a
    line made of a first token and columns, each after a run of spaces,
    tabs or line feeds, with such runs allowed before the first token and
    after the last column, [strtok] delivers the first token and then the
    columns, and the count is the number of columns. *)
Theorem samples_number_counts_columns :
  forall (lead key : string) (cols : list (string * string)) (trail : string),
    over is_delim lead = true -> is_token key ->
    Forall (fun c => is_separator (fst c) /\ is_token (snd c)) cols ->
    over is_delim trail = true ->
    strtok_all EmptyString (lead ++ key ++ columns_text cols ++ trail)
    = key :: map snd cols /\
    samples_number (lead ++ key ++ columns_text cols ++ trail)
    = Z.of_nat (List.length cols).
Proof.
  intros lead key cols trail Hlead Hkey Hcols Htrail.
  assert (E : strtok_all EmptyString (lead ++ key ++ columns_text cols ++ trail)
              = key :: map snd cols).
  { rewrite (strtok_all_skip _ _ Hlead).
    now apply strtok_all_columns. }
  split; [exact E|].
  unfold samples_number. rewrite c_str_id.
  - rewrite E. simpl count_tokens. rewrite count_tokens_rest, length_map. lia.
  - unfold no_NUL. rewrite !over_append.
    fold (no_NUL lead). fold (no_NUL key). fold (no_NUL (columns_text cols)).
    fold (no_NUL trail).
    now rewrite (delim_no_NUL _ Hlead), (token_no_NUL _ Hkey),
      (columns_no_NUL _ Hcols), (delim_no_NUL _ Htrail).
Qed.

Lemma samples_number_counts_columns_witness :
  samples_number ("ACGT" ++ columns_text [(" ", "12"); (String TAB " ", "0"); (" ", "7")]
                  ++ nl) = 3.
Proof.
  apply (samples_number_counts_columns EmptyString "ACGT"
           [(" ", "12"); (String TAB " ", "0"); (" ", "7")] nl).
  - reflexivity.
  - split; [discriminate | reflexivity].
  - repeat constructor; simpl; discriminate.
  - reflexivity.
Defined.

Lemma skip_while_split (p : ascii -> bool) (l : string) :
  exists pre,
    l = pre ++ skip_while p l /\
    over (fun c => negb (Ascii.eqb c NUL) && p c) pre = true.
Proof.
  induction l as [|c l (pre & E & Hpre)]; [exists EmptyString; auto|].
  simpl. destruct (negb (Ascii.eqb c NUL) && p c) eqn:Ec.
  - exists (String c pre). simpl. rewrite Ec, Hpre. now rewrite <- E.
  - exists EmptyString. auto.
Qed.

Lemma strtok_all_skip_blank (s : string) :
  strtok_all EmptyString (skip_while is_blank s) = strtok_all EmptyString s.
Proof.
  induction s as [|c s IH]; [reflexivity|]. simpl skip_while.
  destruct (negb (Ascii.eqb c NUL) && is_blank c) eqn:Ec; [|reflexivity].
  apply andb_true_iff in Ec as [_ Hb]. rewrite IH. simpl.
  unfold is_delim. unfold is_blank in Hb. now rewrite Hb.
Qed.

Lemma strtok_all_zeros (n : nat) :
  forall cur,
    strtok_all cur (zeros n)
    = ((if is_empty cur then [] else [cur]) ++ repeat "0" n)%list.
Proof.
  induction n as [|n IH]; intros cur.
  - simpl. rewrite app_nil_r. apply emit_token.
  - change (zeros (S n)) with (String " " (String "0" (zeros n))).
    change (strtok_all cur (String " " (String "0" (zeros n))))
      with (match cur with
            | EmptyString => strtok_all "0" (zeros n)
            | _ => cur :: strtok_all "0" (zeros n)
            end).
    rewrite IH. now destruct cur.
Qed.

Lemma strtok_all_padding (a : string) (n : nat) :
  strtok_all EmptyString (a ++ zeros n)
  = (strtok_all EmptyString a ++ repeat "0" n)%list.
Proof.
  destruct n as [|n].
  - simpl. now rewrite append_nil_r, app_nil_r.
  - change (zeros (S n)) with (String " " (String "0" (zeros n))).
    rewrite (strtok_all_delim " " a _ eq_refl). f_equal.
    change (strtok_all EmptyString (String "0" (zeros n)))
      with (strtok_all "0" (zeros n)).
    now rewrite strtok_all_zeros.
Qed.

Lemma zeros_no_NUL (n : nat) : no_NUL (zeros n) = true.
Proof. induction n as [|n IH]; [reflexivity | exact IH]. Qed.

(** The tokens of the line of a row: a first token, which starts with the
    key, and the tokens of what [first_column] returns. *)
Lemma row_tokens (ksize : Z) (r : row) :
  0 < ksize -> row_ok ksize r ->
  exists tok,
    strtok_all EmptyString (snd r)
    = tok :: strtok_all EmptyString (first_column (snd r)).
Proof.
  intros Hk (Ln & Hacc & Ht & HN & HLF).
  destruct (skip_while_split (fun c => negb (is_blank c)) (snd r))
    as (tok & E & Htok).
  set (rest := skip_while (fun c => negb (is_blank c)) (snd r)) in *.
  assert (Hne : tok <> EmptyString).
  { intros ->. simpl in E.
    destruct (snd r) as [|c l] eqn:El.
    - rewrite <- Ht in Ln. destruct (Z.to_nat ksize) eqn:En;
        [lia | discriminate Ln].
    - rewrite <- Ht in Hacc. destruct (Z.to_nat ksize) eqn:En; [lia|].
      simpl in Hacc. apply andb_true_iff in Hacc as [Hc _].
      destruct (accepted_plain c Hc) as (HcN & _ & Hcb & _).
      subst rest. simpl in E. rewrite HcN, Hcb in E. simpl in E.
      assert (Hlen : String.length (String c l)
                     = String.length (skip_while (fun c => negb (is_blank c)) l))
        by (now rewrite E at 1).
      destruct (skip_while_split (fun c => negb (is_blank c)) l) as (pre & E' & _).
      apply (f_equal String.length) in E'. rewrite length_append in E'.
      simpl in Hlen. lia. }
  assert (Hnd : over (fun c => negb (is_delim c)) tok = true).
  { assert (HLFt : no_LF tok = true).
    { rewrite E in HLF. unfold no_LF in *. rewrite over_append in HLF.
      now apply andb_true_iff in HLF as [H _]. }
    clear - Htok HLFt. unfold no_LF in HLFt.
    induction tok as [|c tok IH]; [reflexivity|]. simpl in *.
    apply andb_true_iff in Htok as [Hc Htok].
    apply andb_true_iff in HLFt as [Hl HLFt].
    apply andb_true_iff in Hc as [_ Hb].
    rewrite (IH Htok HLFt), andb_true_r.
    unfold is_delim. unfold is_blank in Hb. unfold is_LF in Hl.
    apply negb_true_iff in Hb, Hl. now rewrite Hb, Hl. }
  exists tok. unfold first_column. fold rest.
  rewrite strtok_all_skip_blank. rewrite E at 1.
  assert (Hrest : rest = EmptyString \/ exists d b, rest = String d b /\ is_delim d = true).
  { destruct rest as [|d b] eqn:Er; [now left | right].
    exists d, b. split; [reflexivity|].
    assert (Hd : negb (Ascii.eqb d NUL) && negb (is_blank d) = false).
    { subst rest. clear - Er.
      induction (snd r) as [|c l IH]; simpl in Er; [discriminate Er|].
      destruct (negb (Ascii.eqb c NUL) && negb (is_blank c)) eqn:Ec; [auto|].
      now injection Er as <- _. }
    assert (HdN : Ascii.eqb d NUL = false).
    { rewrite E in HN. unfold no_NUL in HN. rewrite over_append in HN.
      apply andb_true_iff in HN as [_ HN]. simpl in HN.
      apply andb_true_iff in HN as [HN _]. now apply negb_true_iff in HN. }
    rewrite HdN in Hd. simpl in Hd. apply negb_false_iff in Hd.
    unfold is_delim. unfold is_blank in Hd. now rewrite Hd. }
  destruct Hrest as [-> | (d & b & -> & Hd)].
  - rewrite append_nil_r, (strtok_all_token _ Hnd). simpl.
    destruct tok; [congruence | reflexivity].
  - rewrite (strtok_all_delim d _ _ Hd), (strtok_all_token _ Hnd). simpl.
    rewrite Hd. destruct tok; [congruence | reflexivity].
Qed.

(** X18. A row written by the draining loop has the sample columns of the
    left row and those appended: counted as [samples_number] counts them,
    its columns are as many as on the line of the left row, plus the
    number of columns " 0". *)
Theorem drained_row_has_both_widths :
  forall (ksize n_sample_2 : Z) (r : row),
    0 < ksize -> 0 <= n_sample_2 -> row_ok ksize r ->
    samples_number (padded_row n_sample_2 r)
    = samples_number (snd r) + n_sample_2.
Proof.
  intros ksize n r Hk Hn Hr.
  destruct (row_tokens ksize r Hk Hr) as (tok & Etok).
  destruct Hr as (Ln & Hacc & Ht & HN & HLF).
  unfold samples_number. rewrite (c_str_id _ HN), Etok.
  rewrite c_str_id.
  - unfold padded_row.
    change (fst r ++ " " ++ first_column (snd r) ++ zeros (Z.to_nat n))
      with (fst r ++ String " " (first_column (snd r) ++ zeros (Z.to_nat n))).
    rewrite (strtok_all_delim " " _ _ eq_refl), strtok_all_padding.
    assert (Hkey : over (fun c => negb (is_delim c)) (fst r) = true).
    { apply (over_weaken accepted); [|exact Hacc].
      intros c Hc. destruct (accepted_plain c Hc) as (_ & HL & Hb & _).
      unfold is_delim. unfold is_blank in Hb. unfold is_LF in HL.
      now rewrite Hb, HL. }
    rewrite (strtok_all_token _ Hkey). simpl "++"%string.
    destruct (fst r) as [|c k] eqn:Ek;
      [simpl in Ln; lia|].
    simpl. rewrite !count_tokens_rest, length_app, repeat_length. lia.
  - unfold padded_row, no_NUL. rewrite !over_append.
    fold (no_NUL (first_column (snd r))). fold (no_NUL (zeros (Z.to_nat n))).
    rewrite zeros_no_NUL, andb_true_r.
    assert (HNk : no_NUL (fst r) = true).
    { rewrite <- (c_str_no_NUL (fst r)). now rewrite (key_no_NUL _ Hacc). }
    unfold no_NUL in HNk. rewrite HNk. simpl.
    unfold first_column. now do 2 apply skip_while_over.
Qed.

Lemma drained_row_has_both_widths_witness :
  samples_number (padded_row 2 ("TTT", "TTT 3 3 9")) = 3 + 2.
Proof.
  apply (drained_row_has_both_widths 3 2 ("TTT", "TTT 3 3 9")).
  - lia.
  - lia.
  - repeat split; reflexivity.
Defined.

(** ** How a run ends *)

Lemma message_not_empty (argv0 : string) (c : ascii) :
  reported (invalid_option argv0 c) /\ reported (missing_argument argv0 c).
Proof.
  split; intros _; simpl; destruct argv0; discriminate.
Qed.

Lemma lookup_opt_not_question (c : ascii) (b : bool) :
  lookup_opt optstring c = Some b -> c <> "?"%char.
Proof. intros H ->. discriminate H. Qed.

Lemma scan_cluster_reported (argv0 cl : string) (next : option string) :
  forall rets took,
    scan_cluster optstring argv0 cl next = (rets, took) -> Forall reported rets.
Proof.
  induction cl as [|c cl IH]; simpl; intros rets took E.
  - inversion E. constructor.
  - destruct (lookup_opt optstring c) as [[|]|] eqn:El.
    + apply lookup_opt_not_question in El.
      destruct cl; [destruct next|]; inversion E; subst;
        repeat constructor; try (intros H; simpl in H; congruence).
      apply message_not_empty.
    + apply lookup_opt_not_question in El.
      destruct (scan_cluster optstring argv0 cl next) as [rets' took'].
      inversion E; subst. constructor; [|eapply IH; reflexivity].
      intros H; simpl in H; congruence.
    + destruct (scan_cluster optstring argv0 cl next) as [rets' took'].
      inversion E; subst. constructor; [|eapply IH; reflexivity].
      apply message_not_empty.
Qed.

Lemma getopt_all_reported (argv0 : string) (n : nat) :
  forall args, (List.length args <= n)%nat ->
    Forall reported (fst (getopt_all optstring argv0 args)).
Proof.
  induction n as [|n IH]; intros [|a rest] Hlen; simpl in *;
    try constructor; try lia.
  destruct (String.eqb a "--"); [constructor|].
  destruct (Ascii.eqb (deref a) "-" && negb (String.eqb (tail a) EmptyString)).
  - destruct (scan_cluster optstring argv0 (tail a) (hd_error rest))
      as [rets took] eqn:Es.
    apply scan_cluster_reported in Es.
    destruct rest as [|b rest']; [exact Es|].
    assert (H : Forall reported
                  (fst (getopt_all optstring argv0
                          (if took then rest' else b :: rest')))).
    { apply IH. destruct took; simpl in *; lia. }
    destruct (getopt_all optstring argv0 (if took then rest' else b :: rest')).
    simpl in *. apply Forall_app. split; assumption.
  - assert (H : Forall reported (fst (getopt_all optstring argv0 rest)))
      by (apply IH; lia).
    destruct (getopt_all optstring argv0 rest). exact H.
Qed.

Lemma parse_options_reported (rets : list getopt_ret) :
  Forall reported rets ->
  forall o err, parse_options rets o = Return1 err -> err <> EmptyString.
Proof.
  induction 1 as [|r rets Hr _ IH]; intros o err; simpl; [discriminate|].
  destruct (Ascii.eqb (g_c r) "k"); [apply IH|].
  destruct (Ascii.eqb (g_c r) "o"); [apply IH|].
  destruct (Ascii.eqb (g_c r) "z"); [apply IH|].
  destruct (Ascii.eqb (g_c r) "h"); [apply IH|].
  destruct (Ascii.eqb_spec (g_c r) "?"%char) as [Eq|_]; [|discriminate].
  intros E. injection E as <-. exact (Hr Eq).
Qed.

(** X19. However a run of [main] ends, its exit status is 0 or 1; and a
    run that ends with status 1 has written a message to the standard
    error stream, nothing to the standard output, and has not opened the
    output file: a failure leaves no partial output. *)
Theorem failure_is_reported_and_leaves_no_output :
  forall (w : world) (argv : list string) (e : outcome),
    main w argv = Ret (Exits e) ->
    status e = 0 \/
    (status e = 1 /\ errors e <> EmptyString /\
     stdout e = EmptyString /\ written e = None).
Proof.
  intros w argv e. unfold main.
  pose proof (getopt_all_reported (hd EmptyString argv) _ (List.tl argv)
                (Nat.le_refl _)) as Hrep.
  destruct (getopt_all optstring (hd EmptyString argv) (List.tl argv))
    as [rets pos].
  simpl in Hrep.
  destruct (parse_options rets default_options) as [o|err|] eqn:Ep;
    [|intros E; injection E as <-; right; simpl; repeat split; auto;
      apply (parse_options_reported rets Hrep _ _ Ep)
     |discriminate].
  unfold run, cannot_open.
  destruct (ksize o <=? 0);
    [intros E; injection E as <-; right; simpl; repeat split; auto; discriminate|].
  destruct (negb (Nat.eqb (List.length pos) 2) || help_opt o);
    [intros E; injection E as <-; now left|].
  destruct (readable w (nth 0 pos EmptyString));
    [|intros E; injection E as <-; right; simpl; repeat split; auto; discriminate].
  destruct (readable w (nth 1 pos EmptyString));
    [|intros E; injection E as <-; right; simpl; repeat split; auto; discriminate].
  destruct (match out_fname o with
            | Some p => negb (writable w p)
            | None => false
            end);
    [intros E; injection E as <-; right; simpl; repeat split; auto; discriminate|].
  destruct (ksize o =? INT_MAX); [discriminate|].
  destruct (diff _ _ _ _); simpl; try discriminate.
  intros E; injection E as <-. now left.
Qed.

Lemma failure_is_reported_and_leaves_no_output_witness :
  1 = 0 \/
  (1 = 1 /\ cannot_open "Cannot open file " "nowhere" <> EmptyString /\
   EmptyString = EmptyString /\ @None (string * string) = None).
Proof.
  exact (failure_is_reported_and_leaves_no_output world_P6
           ["km_diff"; "-k"; "3"; "-o"; "out"; "left"; "nowhere"]
           {| status := 1; stdout := EmptyString;
              errors := cannot_open "Cannot open file " "nowhere";
              opened := ["left"; "nowhere"]; written := None |}
           eq_refl).
Defined.

(** ** The loops end on every input *)

Lemma check_kmer_no_fuel (n : nat) : forall line, check_kmer n line <> Fuel.
Proof.
  induction n as [|n IH]; intros line; simpl; [discriminate|].
  destruct (isnuc _) as [v|]; [|discriminate].
  destruct (v =? 0); [discriminate|].
  specialize (IH (tail line)).
  destruct (check_kmer n (tail line)); simpl; congruence.
Qed.

Lemma reader_shrinks (kmer : string) (ksize : Z) (line stream : string) :
  0 < ksize ->
  next_kmer_and_line kmer ksize line stream <> Fuel /\
  forall r, next_kmer_and_line kmer ksize line stream = Ret r ->
    (String.length (r_stream r) <= String.length stream)%nat /\
    (r_ok r = true ->
     (String.length (r_stream r) < String.length stream)%nat).
Proof.
  intros Hk.
  destruct (reader_unfold kmer ksize line stream Hk)
    as [(-> & E) | (buf & rest & -> & Hne & _ & _ & E)]; rewrite E; clear E.
  - split; [discriminate|]. intros r Er. injection Er as <-. simpl.
    split; [lia | discriminate].
  - assert (Hlen : (String.length rest < String.length (buf ++ rest))%nat).
    { rewrite length_append. destruct buf; [congruence | simpl; lia]. }
    destruct (_ <? ksize).
    + split; [discriminate|]. intros r Er. injection Er as <-. simpl.
      split; [lia | discriminate].
    + pose proof (check_kmer_no_fuel (Z.to_nat ksize) buf) as Hf.
      destruct (check_kmer _ _) as [[[] k]| |]; simpl;
        try congruence; (split; [discriminate|]);
        intros r Er; try discriminate Er;
        injection Er as <-; simpl; split; intros; lia.
Qed.

Lemma advance_1_shrinks (ksize : Z) (st : state) :
  0 < ksize ->
  advance_1 ksize st <> Fuel /\
  forall st', advance_1 ksize st = Ret st' ->
    mat_2 st' = mat_2 st /\ has_kmer_2 st' = has_kmer_2 st /\
    (String.length (mat_1 st') <= String.length (mat_1 st))%nat /\
    (has_kmer_1 st' = true ->
     (String.length (mat_1 st') < String.length (mat_1 st))%nat).
Proof.
  intros Hk. unfold advance_1.
  destruct (reader_shrinks (kmer_1 st) ksize (line_1 st) (mat_1 st) Hk)
    as [Hf Hr].
  destruct (next_kmer_and_line _ _ _ _) as [r| |]; simpl; try congruence.
  - split; [discriminate|]. intros st' E. injection E as <-. simpl.
    destruct (Hr r eq_refl) as [Hle Hlt]. auto.
  - split; [discriminate | discriminate].
Qed.

Lemma advance_2_shrinks (ksize : Z) (st : state) :
  0 < ksize ->
  advance_2 ksize st <> Fuel /\
  forall st', advance_2 ksize st = Ret st' ->
    mat_1 st' = mat_1 st /\ has_kmer_1 st' = has_kmer_1 st /\
    (String.length (mat_2 st') <= String.length (mat_2 st))%nat /\
    (has_kmer_2 st' = true ->
     (String.length (mat_2 st') < String.length (mat_2 st))%nat).
Proof.
  intros Hk. unfold advance_2.
  destruct (reader_shrinks (kmer_2 st) ksize (line_2 st) (mat_2 st) Hk)
    as [Hf Hr].
  destruct (next_kmer_and_line _ _ _ _) as [r| |]; simpl; try congruence.
  - split; [discriminate|]. intros st' E. injection E as <-. simpl.
    destruct (Hr r eq_refl) as [Hle Hlt]. auto.
  - split; [discriminate | discriminate].
Qed.

Lemma merge_step_shrinks (ksize : Z) (z : bool) (st : state) :
  0 < ksize ->
  merge_step ksize z st <> Fuel /\
  forall st', merge_step ksize z st = Ret st' ->
    has_kmer_1 st' && has_kmer_2 st' = true ->
    (String.length (mat_1 st') + String.length (mat_2 st')
     < String.length (mat_1 st) + String.length (mat_2 st))%nat.
Proof.
  intros Hk. unfold merge_step.
  destruct (compare_keys z st =? 0); [|destruct (compare_keys z st <? 0)].
  - destruct (advance_1_shrinks ksize st Hk) as [Hf1 H1].
    destruct (advance_1 ksize st) as [st1| |]; simpl; try congruence;
      [|split; discriminate].
    destruct (H1 st1 eq_refl) as (Hm2 & _ & _ & Hlt1).
    destruct (advance_2_shrinks ksize st1 Hk) as [Hf2 H2].
    destruct (advance_2 ksize st1) as [st2| |]; simpl; try congruence;
      [|split; discriminate].
    destruct (H2 st2 eq_refl) as (Hm1 & Hh1 & _ & Hlt2).
    split; [discriminate|]. intros st' E Hb. injection E as <-. simpl in *.
    apply andb_true_iff in Hb as [Hb1 Hb2]. rewrite Hh1 in Hb1.
    specialize (Hlt1 Hb1). specialize (Hlt2 Hb2).
    rewrite Hm1. rewrite Hm2 in Hlt2. lia.
  - destruct (advance_1_shrinks ksize (fputs (line_1 st) st) Hk) as [Hf1 H1].
    destruct (advance_1 ksize (fputs (line_1 st) st)) as [st1| |]; simpl;
      try congruence; [|split; discriminate].
    destruct (H1 st1 eq_refl) as (Hm2 & _ & _ & Hlt1).
    split; [discriminate|]. intros st' E Hb. injection E as <-. simpl in *.
    apply andb_true_iff in Hb as [Hb1 Hb2]. specialize (Hlt1 Hb1).
    rewrite Hm2. lia.
  - destruct (advance_2_shrinks ksize st Hk) as [Hf2 H2].
    destruct (advance_2 ksize st) as [st2| |]; simpl;
      try congruence; [|split; discriminate].
    destruct (H2 st2 eq_refl) as (Hm1 & _ & _ & Hlt2).
    split; [discriminate|]. intros st' E Hb. injection E as <-. simpl in *.
    apply andb_true_iff in Hb as [Hb1 Hb2]. specialize (Hlt2 Hb2).
    rewrite Hm1. lia.
Qed.

Lemma merging_no_fuel (ksize : Z) (z : bool) (fuel : nat) :
  0 < ksize ->
  forall st,
    (has_kmer_1 st && has_kmer_2 st = true ->
     (String.length (mat_1 st) + String.length (mat_2 st) < fuel)%nat) ->
    merging fuel ksize z st <> Fuel.
Proof.
  intros Hk. induction fuel as [|fuel IH]; intros st Hfuel; simpl;
    destruct (has_kmer_1 st && has_kmer_2 st) eqn:Eb; try discriminate.
  - specialize (Hfuel eq_refl). lia.
  - specialize (Hfuel eq_refl).
    destruct (merge_step_shrinks ksize z st Hk) as [Hf Hs].
    destruct (merge_step ksize z st) as [st1| |]; simpl; try congruence.
    apply IH. intros Hb. specialize (Hs st1 eq_refl Hb). lia.
Qed.

Lemma drain_no_fuel (ksize n : Z) (fuel : nat) :
  0 < ksize ->
  forall st,
    (has_kmer_1 st = true -> (String.length (mat_1 st) < fuel)%nat) ->
    drain fuel ksize n st <> Fuel.
Proof.
  intros Hk. induction fuel as [|fuel IH]; intros st Hfuel; simpl;
    destruct (has_kmer_1 st) eqn:Eb; try discriminate.
  - specialize (Hfuel eq_refl). lia.
  - specialize (Hfuel eq_refl). unfold drain_step. rewrite pad_zeros_spec.
    match goal with |- context [advance_1 ksize ?X] =>
      destruct (advance_1_shrinks ksize X Hk) as [Hf Hs];
      destruct (advance_1 ksize X) as [st1| |]
    end; simpl; try congruence.
    destruct (Hs st1 eq_refl) as (_ & _ & _ & Hlt). simpl in Hlt.
    apply IH. intros Hb. specialize (Hlt Hb). lia.
Qed.

(** X20. The two loops end on every pair of files, of any bytes: with a
    positive key length the bound on their iterations is never reached.
    The run either ends with the output written or reads the table
    [isnuc] out of bounds, and the latter only when a file has a byte
    above 127. *)
Theorem run_always_ends :
  forall (ksize : Z) (use_ktcmp : bool) (file_1 file_2 : string),
    0 < ksize ->
    diff ksize use_ktcmp file_1 file_2 <> Fuel /\
    (diff ksize use_ktcmp file_1 file_2 = Undef ->
     over seven_bit file_1 = false \/ over seven_bit file_2 = false).
Proof.
  intros ksize z file_1 file_2 Hk. split.
  - unfold diff, init.
    match goal with |- context [advance_1 ksize ?X] =>
      destruct (advance_1_shrinks ksize X Hk) as [Hf1 _];
      destruct (advance_1 ksize X) as [st1| |]
    end; cbn [bind fst snd]; try congruence.
    match goal with |- context [advance_2 ksize ?X] =>
      destruct (advance_2_shrinks ksize X Hk) as [Hf2 _];
      destruct (advance_2 ksize X) as [st2| |]
    end; cbn [bind fst snd]; try congruence.
    match goal with |- context [merging ?f ksize z ?X] =>
      pose proof (merging_no_fuel ksize z f Hk X) as Hm;
      destruct (merging f ksize z X) as [st3| |]
    end; cbn [bind fst snd]; try discriminate.
    + apply drain_no_fuel; [exact Hk|]. intros _. unfold fuel_of. lia.
    + apply Hm. intros _. unfold fuel_of. simpl. lia.
  - intros E.
    destruct (over seven_bit file_1) eqn:H1; [|now left].
    destruct (over seven_bit file_2) eqn:H2; [|now right].
    destruct (diff_output ksize z file_1 file_2 Hk H1 H2) as (st & Ed & _).
    congruence.
Qed.

Lemma run_always_ends_witness :
  diff 2 false ("AC" ++ String "200"%char ("G 1" ++ nl)) ("GG" ++ String "200"%char nl)
  <> Fuel.
Proof.
  apply (run_always_ends 2 false). lia.
Defined.

(** ** The destination of the output *)


